(** * Supermarket API: cart pricing and record normalisation

    A shallow embedding of [main.py]: the cart summary computation
    ([compute_cart_summary]), the loop that makes stored records
    JSON-safe in [list_products] / [list_users], and the way the four
    store-backed endpoints turn exceptions into HTTP 500 responses.

    Python values are modelled as the code has them:
    - [float] is IEEE-754 binary64, through the standard library's
      executable specification [SpecFloat] (53-bit mantissa, round to
      nearest even), so [0.07], [4.99] and the results of [*], [+] and
      [round] are the very doubles CPython computes;
    - [sum] over floats is modelled both ways CPython computes it: adding
      left to right (up to 3.11) and carrying a compensation term (from
      3.12); what is proved about the cart is proved for both unless it
      says otherwise;
    - [int] is [Z] (unbounded);
    - a [str] holds its UTF-8 bytes, and slices count characters;
    - a [dict] with string keys is a [gmap string value];
    - code that can raise returns a [result]. *)

From Stdlib Require Import ZArith QArith Qpower Lia.
From Stdlib Require Import Floats.SpecFloat.
From stdpp Require Import gmap strings list fin_maps pretty.

Local Open Scope string_scope.
Local Open Scope Z_scope.

(** ** Exceptions and results *)

(** A Python exception: its class name and the text [str(e)] gives. *)
Record exn := Exception { exn_class : string; exn_str : string }.

Inductive result (A : Type) : Type :=
| Ok (a : A)
| Raise (e : exn).
Arguments Ok {A} a.
Arguments Raise {A} e.

Definition bind {A B} (m : result A) (k : A -> result B) : result B :=
  match m with
  | Ok a => k a
  | Raise e => Raise e
  end.

Notation "'do' x <- m ; k" := (bind m (fun x => k))
  (at level 10, x name, m at level 100, k at level 200).

(** ** Python floats (binary64) *)

Definition prec : Z := 53.
Definition emax : Z := 1024.

Definition float : Type := spec_float.

Definition fadd : float -> float -> float := SFadd prec emax.
Definition fmul : float -> float -> float := SFmul prec emax.
Definition fdiv : float -> float -> float := SFdiv prec emax.
Definition feqb : float -> float -> bool := SFeqb.
Definition fltb : float -> float -> bool := SFltb.
Definition fsub : float -> float -> float := SFsub prec emax.
Definition fabs : float -> float := SFabs.
Definition fleb : float -> float -> bool := SFleb.

(** The double nearest to an integer (ties to even; infinite past the
    largest double). *)
Definition Z_to_float (z : Z) : float := binary_normalize prec emax z 0 false.

(** A decimal literal [n / 10^k] of the source, read as Python reads it:
    the double nearest to that rational.  Division of two exactly
    represented integers is correctly rounded, which is what is needed
    ([n] and [10^k] below 2^53). *)
Definition dec (n : Z) (k : nat) : float :=
  fdiv (Z_to_float n) (Z_to_float (10 ^ Z.of_nat k)).

(** Integers whose nearest double would be 2^1024 or more do not convert:
    the smallest such magnitude is 2^1024 - 2^970. *)
Definition DBL_OVERFLOW : Z := 2 ^ 1024 - 2 ^ 970.

(** [float(z)] as performed implicitly by [float * int]. *)
Definition int_to_float (z : Z) : result float :=
  if DBL_OVERFLOW <=? Z.abs z
  then Raise (Exception "OverflowError" "int too large to convert to float")
  else Ok (Z_to_float z).

(** [num / den] rounded to the nearest integer, ties to the even one
    ([den] positive). *)
Definition round_half_even (num den : Z) : Z :=
  let q := num / den in
  match (2 * (num mod den)) ?= den with
  | Lt => q
  | Gt => q + 1
  | Eq => if Z.even q then q else q + 1
  end.

(** [round(x, ndigits)] on a float, for [ndigits >= 0].  CPython prints
    the exact binary value of [x] correctly rounded (half to even) to
    [ndigits] decimals and reads that decimal string back as the nearest
    double; infinities, NaN and zeros are returned as they are, the sign of
    a result that rounds to zero is kept, and past 323 digits every double
    rounds to itself. *)
Definition py_round (x : float) (ndigits : nat) : float :=
  match x with
  | S754_finite s m e =>
      if (323 <? Z.of_nat ndigits) then x else
      let scale := 10 ^ Z.of_nat ndigits in
      let n := if 0 <=? e then scale * Z.pos m * 2 ^ e
               else round_half_even (scale * Z.pos m) (2 ^ (- e)) in
      match n, scale with
      | Z.pos p, Z.pos sc => fdiv (S754_finite s p 0) (S754_finite false sc 0)
      | _, _ => S754_zero s
      end
  | _ => x
  end.

(** ** Sign, finiteness and exact value of a float *)

(** Not less than zero: a zero of either sign, a positive number,
    [+inf], or NaN (which compares less than nothing). *)
Definition not_below_zero (f : float) : bool :=
  match f with
  | S754_finite true _ _ | S754_infinity true => false
  | _ => true
  end.

(** Neither an infinity nor NaN. *)
Definition is_finite (f : float) : bool :=
  match f with
  | S754_zero _ | S754_finite _ _ _ => true
  | _ => false
  end.

(** The rational number a finite float stands for, [± m × 2^e]. *)
Definition float_value (f : float) : option Q :=
  match f with
  | S754_zero _ => Some 0%Q
  | S754_finite s m e => Some (inject_Z (cond_Zopp s (Z.pos m)) * 2 ^ e)%Q
  | _ => None
  end.


(** ** Floats on the binary64 grid

    Definitions for reasoning about what an addition rounds to.  A finite
    binary64 float is a whole number of units of 2^-1074, the spacing of
    the smallest floats. *)

(** The float in units of 2^-1074 (0 for an infinity or NaN). *)
Definition scaled (f : float) : Z :=
  match f with
  | S754_finite s m e => cond_Zopp s (Z.pos m * 2 ^ (e + 1074))
  | _ => 0
  end.

(** A float as binary64 has it: the mantissa has 53 bits, or fewer at
    the smallest exponent, and the exponent is in range. *)
Definition valid (f : float) : bool := valid_binary prec emax f.

(** The spacing of the floats around [n] units is [2 ^ ulp_exp n] units;
    [rep n] says that [n] units is a float's magnitude as far as the
    spacing goes. *)
Definition ulp_exp (n : Z) : Z := Z.max (Z.log2 n - 52) 0.

Definition rep (n : Z) : Prop := (2 ^ ulp_exp n | n).

(** [R] is one of the two grid points next to [S >= 0], and [S] itself
    when [S] is on the grid: all that is needed here of rounding to
    nearest. *)
Definition near_pos (S R : Z) : Prop :=
  let u := 2 ^ ulp_exp S in
  (u | R) /\ S / u * u <= R <= S / u * u + u /\ (S mod u = 0 -> R = S).

Definition near (t r : Z) : Prop :=
  (0 <= t -> 0 <= r) /\ (t <= 0 -> r <= 0) /\ near_pos (Z.abs t) (Z.abs r).

(** Whether a right shift dropped a bit that was set. *)
Definition inexact (r : shr_record) : bool := shr_r r || shr_s r.

(** What [binary_round_aux] returns for a mantissa rounded to [q] at
    exponent [e1]. *)
Definition rounded (s : bool) (q e1 : Z) (r : float) : Prop :=
  (q = 0 /\ r = S754_zero s) \/
  (0 < q /\ r = S754_infinity s) \/
  (exists m e, r = S754_finite s m e /\ bounded prec emax m e = true /\
               e1 <= e /\ Z.pos m * 2 ^ (e - e1) = q).

(** What [binary_round] returns for a magnitude rounded to [R] units. *)
Definition rounded_to (s : bool) (R : Z) (r : float) : Prop :=
  r = S754_infinity s \/
  exists m e, r = S754_finite s m e /\ bounded prec emax m e = true /\
              Z.pos m * 2 ^ (e + 1074) = R.

(** What the sum or difference of two finite floats is, given its exact
    value [t] in units: an infinity of the sign of [t] on overflow, and
    otherwise a valid finite float next to [t]. *)
Definition sum_result (t : Z) (r : float) : Prop :=
  (t <> 0 /\ r = S754_infinity (t <? 0)) \/
  (is_finite r = true /\ valid r = true /\ near t (scaled r)).

(** A valid float that is not below zero. *)
Definition nonneg_ok (f : float) : Prop :=
  not_below_zero f = true /\ valid f = true.

(** What the compensated loop keeps true of its running sum [f] and its
    correction [c] while the terms are not below zero: the correction
    never outweighs the sum. *)
Definition comp_inv (f c : float) : Prop :=
  nonneg_ok f /\ valid c = true /\
  (is_finite f = false \/ is_finite c = false \/ 0 <= scaled f + scaled c).

(** ** Request and response models *)

(** [class CartItem(BaseModel)]: [id], [name], [price: float], [qty: int]. *)
Record CartItem := {
  ci_id : string;
  ci_name : string;
  price : float;
  qty : Z
}.

(** The only constraint on a cart item is [qty: int = Field(..., ge=0)];
    [price] carries none. *)
Definition CartItem_valid (i : CartItem) : bool := 0 <=? qty i.

(** [class CartSummary(BaseModel)]. *)
Record CartSummary := {
  subtotal : float;
  tax : float;
  shipping : float;
  total : float
}.

(** ** Cart summary *)

(** [i.price * i.qty]: the quantity is converted to a float first. *)
Definition line_total (i : CartItem) : result float :=
  do q <- int_to_float (qty i);
  Ok (fmul (price i) q).

(** How [sum] adds floats depends on the interpreter.  Up to CPython 3.11
    it adds them one after the other; from CPython 3.12 it carries a
    compensation term along (Neumaier's variant of Kahan summation) and
    adds it at the end.  Nothing in the repository fixes the interpreter,
    so the summary is modelled for both. *)
Inductive sum_algorithm := LeftToRight | Compensated.

(** [sum(gen)], left to right: the generator's elements are produced one
    by one and added to an accumulator. *)
Fixpoint py_sum_from (acc : float) (gen : list (result float)) : result float :=
  match gen with
  | [] => Ok acc
  | x :: rest => do v <- x; py_sum_from (fadd acc v) rest
  end.

(** The float loop of CPython 3.12's [sum]:
    [t = f_result + x;
     if (fabs(f_result) >= fabs(x)) c += (f_result - t) + x;
     else c += (x - t) + f_result;
     f_result = t;]
    and, when the generator is exhausted,
    [if (c && isfinite(c)) f_result += c; return f_result]. *)
Fixpoint py_sum_compensated (f_result c : float) (gen : list (result float))
  : result float :=
  match gen with
  | [] =>
      Ok (if negb (feqb c (dec 0 1)) && is_finite c then fadd f_result c else f_result)
  | x :: rest =>
      do x <- x;
      let t := fadd f_result x in
      let c := if fleb (fabs x) (fabs f_result)
               then fadd c (fadd (fsub f_result t) x)
               else fadd c (fadd (fsub x t) f_result) in
      py_sum_compensated t c rest
  end.

(** [sum(gen)].  The start is the int [0].  For an empty generator the
    int [0] itself is the result, and each of its later uses ([0 == 0],
    [0 * 0.07], [0 + tax], [round(0, 2)] stored in a float field) reads it
    as [+0.0].  The first element is added to the int [0] by a plain
    addition, which converts the [0] to [+0.0]; with the compensated
    algorithm the float loop takes over from the second element on, with
    [c = 0.0]. *)
Definition py_sum (alg : sum_algorithm) (gen : list (result float)) : result float :=
  match alg with
  | LeftToRight => py_sum_from (Z_to_float 0) gen
  | Compensated =>
      match gen with
      | [] => Ok (Z_to_float 0)
      | x :: rest =>
          do x <- x; py_sum_compensated (fadd (Z_to_float 0) x) (dec 0 1) rest
      end
  end.

(** Line 154: [subtotal = sum(i.price * i.qty for i in items)]. *)
Definition cart_subtotal (alg : sum_algorithm) (items : list CartItem) : result float :=
  py_sum alg (map line_total items).

(** Line 155: [0.0 if subtotal == 0 or subtotal > 25 else 4.99]. *)
Definition shipping_fee (subtotal : float) : float :=
  if feqb subtotal (Z_to_float 0) || fltb (Z_to_float 25) subtotal
  then dec 0 1
  else dec 499 2.

(** [POST /api/cart/summary]. *)
Definition compute_cart_summary (alg : sum_algorithm) (items : list CartItem)
  : result CartSummary :=
  do subtotal <- cart_subtotal alg items;
  let shipping := shipping_fee subtotal in
  let tax := py_round (fmul subtotal (dec 7 2)) 2 in
  let total := py_round (fadd (fadd subtotal tax) shipping) 2 in
  Ok {| subtotal := py_round subtotal 2;
        tax := tax;
        shipping := py_round shipping 2;
        total := total |}.

(** The float product of a line whose quantity converts. *)
Definition line_value (i : CartItem) : float :=
  fmul (price i) (Z_to_float (qty i)).

(** One turn of the compensated loop on the pair [(f_result, c)], and what
    the loop returns at the end, on floats that are already there. *)
Definition compensated_step (fc : float * float) (x : float) : float * float :=
  let '(f_result, c) := fc in
  let t := fadd f_result x in
  (t, if fleb (fabs x) (fabs f_result)
      then fadd c (fadd (fsub f_result t) x)
      else fadd c (fadd (fsub x t) f_result)).

Definition compensated_finish (fc : float * float) : float :=
  let '(f_result, c) := fc in
  if negb (feqb c (dec 0 1)) && is_finite c then fadd f_result c else f_result.

(** The float products of the items added one after the other in float
    arithmetic: what the left-to-right sum computes when every quantity
    converts. *)
Definition sigma_price_qty (items : list CartItem) : float :=
  fold_left (fun acc i => fadd acc (fmul (price i) (Z_to_float (qty i))))
            items (S754_zero false).

(** The sum of the spec, [Σ price_i × qty_i], taken exactly: each price
    at the rational number its float stands for.  There is none when a
    price is an infinity or NaN. *)
Fixpoint exact_subtotal (items : list CartItem) : option Q :=
  match items with
  | [] => Some 0%Q
  | i :: rest =>
      match float_value (price i), exact_subtotal rest with
      | Some v, Some r => Some (v * inject_Z (qty i) + r)%Q
      | _, _ => None
      end
  end.



(** ** Stored values *)

(** [datetime.datetime]; [utcoffset] is the offset in minutes of an aware
    datetime, [None] for a naive one. *)
Record datetime := {
  year : N;
  month : N;
  day : N;
  hour : N;
  minute : N;
  second : N;
  microsecond : N;
  utcoffset : option Z
}.

Fixpoint zeros (n : nat) : string :=
  match n with
  | O => ""
  | S n' => "0" +:+ zeros n'
  end.

(** ["%0wd"]: pad on the left with zeros up to width [w]. *)
Definition zfill (w : nat) (s : string) : string :=
  zeros (w - String.length s)%nat +:+ s.

Definition format_offset (off : Z) : string :=
  (if off <? 0 then "-" else "+")
  +:+ zfill 2 (pretty (Z.abs off / 60)) +:+ ":"
  +:+ zfill 2 (pretty (Z.abs off mod 60)).

(** [dt.isoformat(sep)]: [YYYY-MM-DD], the separator, [HH:MM:SS], the
    microseconds when they are not zero, the UTC offset when aware. *)
Definition datetime_isoformat (sep : string) (dt : datetime) : string :=
  zfill 4 (pretty (year dt)) +:+ "-" +:+ zfill 2 (pretty (month dt)) +:+ "-"
  +:+ zfill 2 (pretty (day dt)) +:+ sep
  +:+ zfill 2 (pretty (hour dt)) +:+ ":" +:+ zfill 2 (pretty (minute dt)) +:+ ":"
  +:+ zfill 2 (pretty (second dt))
  +:+ (if (microsecond dt =? 0)%N then "" else "." +:+ zfill 6 (pretty (microsecond dt)))
  +:+ match utcoffset dt with
      | None => ""
      | Some off => format_offset off
      end.

(** The values a stored record holds, as far as this code can tell them
    apart: it takes [str()] of one value and asks the others whether they
    have an [isoformat] attribute.  [VOther repr] stands for every other
    value the store decodes (numbers, lists, nested documents, ...), known
    here by its [str()] only; none of them has [isoformat]. *)
Inductive value :=
| VNone
| VBool (b : bool)
| VStr (s : string)
| VObjectId (hex : string)
| VDatetime (dt : datetime)
| VOther (repr : string).

#[global] Instance value_inhabited : Inhabited value := populate VNone.

(** [str(v)]. *)
Definition py_str (v : value) : string :=
  match v with
  | VNone => "None"
  | VBool b => if b then "True" else "False"
  | VStr s => s
  | VObjectId hex => hex
  | VDatetime dt => datetime_isoformat " " dt
  | VOther repr => repr
  end.

(** [hasattr(v, "isoformat")]. *)
Definition has_isoformat (v : value) : bool :=
  match v with
  | VDatetime _ => true
  | _ => false
  end.

(** [v.isoformat()]. *)
Definition call_isoformat (v : value) : result value :=
  match v with
  | VDatetime dt => Ok (VStr (datetime_isoformat "T" dt))
  | _ => Raise (Exception "AttributeError" "object has no attribute 'isoformat'")
  end.

(** ** Dictionaries *)

Abbreviation dict := (gmap string value).

(** [k in d]. *)
Definition dict_contains (d : dict) (k : string) : bool :=
  bool_decide (is_Some (d !! k)).

(** [d[k]]: raises [KeyError] when the key is missing. *)
Definition dict_getitem (d : dict) (k : string) : result value :=
  match d !! k with
  | Some v => Ok v
  | None => Raise (Exception "KeyError" ("'" +:+ k +:+ "'"))
  end.

(** [d[k] = v]. *)
Definition dict_setitem (d : dict) (k : string) (v : value) : dict := <[k := v]> d.

(** [d.pop(k, default)]: the value removed and the dictionary left, or
    the default and the dictionary as it was. *)
Definition dict_pop (d : dict) (k : string) (default : value) : value * dict :=
  match d !! k with
  | Some v => (v, delete k d)
  | None => (default, d)
  end.

(** ** Record normalisation (the loop body of [list_products] and
    [list_users], lines 116-120 and 141-145) *)

(** [if k in d: d[k] = d[k].isoformat() if hasattr(d[k], "isoformat") else d[k]]. *)
Definition serialize_timestamp (k : string) (d : dict) : result dict :=
  if dict_contains d k then
    do probe <- dict_getitem d k;
    do v <- (if has_isoformat probe
             then do x <- dict_getitem d k; call_isoformat x
             else dict_getitem d k);
    Ok (dict_setitem d k v)
  else Ok d.

Definition normalize_record (d : dict) : result dict :=
  let '(oid, d) := dict_pop d "_id" (VStr "") in
  let d := dict_setitem d "id" (VStr (py_str oid)) in
  do d <- serialize_timestamp "created_at" d;
  serialize_timestamp "updated_at" d.

(** [for d in docs: ...]: the records are normalised in order; the first
    exception ends the loop. *)
Fixpoint normalize_docs (docs : list dict) : result (list dict) :=
  match docs with
  | [] => Ok []
  | d :: rest =>
      do d' <- normalize_record d;
      do rest' <- normalize_docs rest;
      Ok (d' :: rest')
  end.

(** What the loop body leaves of a record when it does not raise: [_id]
    gone, its string form (or the empty string) under [id], and each
    timestamp that is there replaced by its ISO form if it has one. *)
Definition timestamp_value (v : value) : value :=
  match v with
  | VDatetime dt => VStr (datetime_isoformat "T" dt)
  | _ => v
  end.

Definition normalized_form (d : dict) : dict :=
  alter timestamp_value "updated_at"
    (alter timestamp_value "created_at"
       (<["id" := VStr (match d !! "_id" with
                         | Some oid => py_str oid
                         | None => ""
                         end)]> (delete "_id" d))).

(** The shape normalisation produces: a public [id], no [_id], and no
    timestamp that still has an [isoformat] attribute. *)
Definition is_normalized (d : dict) : Prop :=
  is_Some (d !! "id") /\
  d !! "_id" = None /\
  (forall v, d !! "created_at" = Some v -> has_isoformat v = false) /\
  (forall v, d !! "updated_at" = Some v -> has_isoformat v = false).

(** ** Endpoints over the record store *)

(** [class ProductIn(BaseModel)]. *)
Record ProductIn := {
  pi_title : string;
  pi_description : option string;
  pi_price : float;
  pi_category : string;
  pi_in_stock : bool
}.

(** [class UserIn(BaseModel)]. *)
Record UserIn := {
  ui_name : string;
  ui_email : string;
  ui_address : string;
  ui_age : option Z;
  ui_is_active : bool
}.

Inductive payload :=
| ProductPayload (p : ProductIn)
| UserPayload (u : UserIn).

(** What a handler gives back to the framework: a body, or a raised
    [HTTPException(status_code, detail)]. *)
Inductive response (A : Type) : Type :=
| Returns (body : A)
| HTTPException (status_code : Z) (detail : string).
Arguments Returns {A} body.
Arguments HTTPException {A} status_code detail.

(** [{"id": inserted_id, "message": ...}]. *)
Record Created := { created_id : value; message : string }.

(** [{"items": docs}]. *)
Record Listing := { items : list dict }.

(** [try: ... except Exception as e: raise HTTPException(status_code=500,
    detail=str(e))]. *)
Definition except_500 {A} (body : result A) : response A :=
  match body with
  | Ok a => Returns a
  | Raise e => HTTPException 500 (exn_str e)
  end.

Section Endpoints.
  (** The Record Store Adapter ([database.create_document],
      [database.get_documents]) lives outside this file: it is taken as
      given, as functions of the store's state that return or raise and
      leave the store in a new state. *)
  Variable store : Type.
  Variable create_document : string -> payload -> store -> result value * store.
  Variable get_documents : string -> option Z -> store -> result (list dict) * store.

Definition create_product (p : ProductIn) (st : store) : response Created * store :=
  let '(r, st) := create_document "product" (ProductPayload p) st in
  (except_500 (do inserted_id <- r;
               Ok {| created_id := inserted_id; message := "Product created" |}), st).

Definition list_products (limit : option Z) (st : store) : response Listing * store :=
  let '(r, st) := get_documents "product" limit st in
  (except_500 (do docs <- r;
               do docs <- normalize_docs docs;
               Ok {| items := docs |}), st).

Definition create_user (u : UserIn) (st : store) : response Created * store :=
  let '(r, st) := create_document "user" (UserPayload u) st in
  (except_500 (do inserted_id <- r;
               Ok {| created_id := inserted_id; message := "User created" |}), st).

Definition list_users (limit : option Z) (st : store) : response Listing * store :=
  let '(r, st) := get_documents "user" limit st in
  (except_500 (do docs <- r;
               do docs <- normalize_docs docs;
               Ok {| items := docs |}), st).

End Endpoints.

(** ** Sample data *)

Definition item (p : float) (q : Z) : CartItem :=
  {| ci_id := "sku"; ci_name := "item"; price := p; qty := q |}.

Definition march_5 : datetime :=
  {| year := 2024; month := 3; day := 5; hour := 7; minute := 8; second := 9;
     microsecond := 0; utcoffset := None |}.

(** A product as the store returns it. *)
Definition raw_product : dict :=
  <["_id" := VObjectId "65e6c1f09a3b2c0012ab34cd"]>
    (<["title" := VStr "Milk"]>
       (<["in_stock" := VBool true]>
          (<["created_at" := VDatetime march_5]> ∅))).

(** The same product once normalised. *)
Definition normalized_product : dict :=
  <["id" := VStr "65e6c1f09a3b2c0012ab34cd"]>
    (<["title" := VStr "Milk"]>
       (<["in_stock" := VBool true]>
          (<["created_at" := VStr "2024-03-05T07:08:09"]> ∅))).

(** A store that is down: every call raises, and is counted. *)
Definition down : exn :=
  Exception "ServerSelectionTimeoutError" "localhost:27017: connection refused".

Definition down_create_document (_ : string) (_ : payload) (calls : nat)
  : result value * nat := (Raise down, S calls).

Definition down_get_documents (_ : string) (_ : option Z) (calls : nat)
  : result (list dict) * nat := (Raise down, S calls).

Definition milk : ProductIn :=
  {| pi_title := "Milk"; pi_description := None; pi_price := dec 199 2;
     pi_category := "dairy"; pi_in_stock := true |}.

(** ** The normalisation loop on the objects themselves

    [for d in docs:] changes each dictionary where it is, and
    [{"items": docs}] hands back the same objects.  A heap maps the
    address of a dictionary to its content and [docs] is a list of
    addresses.  (An address with no object behind it cannot occur in
    Python; the loop below steps over one.) *)
Abbreviation heap := (gmap nat dict).

Fixpoint normalize_in_place (refs : list nat) (h : heap) : result heap :=
  match refs with
  | [] => Ok h
  | r :: rest =>
      match h !! r with
      | Some d => do d' <- normalize_record d; normalize_in_place rest (<[r := d']> h)
      | None => normalize_in_place rest h
      end
  end.

(** The contents of the listed objects. *)
Definition read_docs (h : heap) (refs : list nat) : list dict :=
  map (fun r => default ∅ (h !! r)) refs.

(** How many times an address is listed. *)
Fixpoint occurrences (a : nat) (refs : list nat) : nat :=
  match refs with
  | [] => O
  | r :: rest => if decide (r = a) then S (occurrences a rest) else occurrences a rest
  end.

(** ** The diagnostic endpoint [GET /test] *)

(** The values of the diagnostic response: [None], a string, a list of
    strings. *)
Inductive diag_value :=
| DNone
| DStr (s : string)
| DList (l : list string).

Abbreviation diag := (gmap string diag_value).

(** The database handle [db] imported from [database], as far as
    [test_database] uses it: its [name] attribute ([None] when it has
    none or the attribute is [None]; reading it may raise something other
    than [AttributeError]) and what [list_collection_names()] returns or
    raises. *)
Record Database := {
  db_name : result (option string);
  list_collection_names : result (list string)
}.

(** A Python [str] is a sequence of code points; the strings here hold
    their UTF-8 bytes, as the literals of the source do.  A byte [10xxxxxx]
    continues the character before it, any other byte starts one. *)
Definition is_continuation (c : Ascii.ascii) : bool :=
  match c with
  | Ascii.Ascii _ _ _ _ _ _ b6 b7 => b7 && negb b6
  end.

(** [len(s)]: the number of characters. *)
Fixpoint code_points (s : string) : nat :=
  match s with
  | "" => O
  | String c s' => if is_continuation c then code_points s' else S (code_points s')
  end.

(** [s[:n]]: the first [n] characters, cut where character [n + 1]
    starts. *)
Fixpoint str_prefix (n : nat) (s : string) : string :=
  match s with
  | "" => ""
  | String c s' =>
      if is_continuation c then String c (str_prefix n s')
      else match n with
           | O => ""
           | S n' => String c (str_prefix n' s')
           end
  end.

(** Whether a string starts where a character starts: it is empty or its
    first byte is not a continuation byte. *)
Definition at_boundary (s : string) : bool :=
  match s with
  | "" => true
  | String c _ => negb (is_continuation c)
  end.

(** Truth value of what [os.getenv] or [getattr(db, 'name', None)]
    gives: a non-empty string. *)
Definition truthy (v : option string) : bool :=
  match v with
  | Some s => negb (String.eqb s "")
  | None => false
  end.

(** ["✅ Set" if os.getenv(k) else "❌ Not Set"]. *)
Definition set_or_not (v : option string) : string :=
  if truthy v then "✅ Set" else "❌ Not Set".

(** Lines 35-42. *)
Definition initial_response : diag :=
  <["backend" := DStr "✅ Running"]>
    (<["database" := DStr "❌ Not Available"]>
       (<["database_url" := DNone]>
          (<["database_name" := DNone]>
             (<["connection_status" := DStr "Not Connected"]>
                (<["collections" := DList []]> ∅))))).

(** Lines 50-55, the inner [try]. *)
Definition probe_collections (d : Database) (response : diag) : diag :=
  match list_collection_names d with
  | Ok collections =>
      let response := <["collections" := DList (take 10 collections)]> response in
      <["database" := DStr "✅ Connected & Working"]> response
  | Raise e =>
      <["database" := DStr ("⚠️  Connected but Error: " +:+ str_prefix 50 (exn_str e))]>
        response
  end.

(** Lines 45-57, the body of the outer [try]: the response as written so
    far, and the exception that ended the body, if one did. *)
Definition probe_database (db : option Database) (env : gmap string string)
    (response : diag) : diag * option exn :=
  match db with
  | Some d =>
      let response := <["database" := DStr "✅ Available"]> response in
      let response :=
        <["database_url" := DStr (set_or_not (env !! "DATABASE_URL"))]> response in
      match db_name d with
      | Raise e => (response, Some e)
      | Ok name =>
          let response :=
            <["database_name" :=
                DStr (if truthy name then default "" name
                      else set_or_not (env !! "DATABASE_NAME"))]> response in
          let response := <["connection_status" := DStr "Connected"]> response in
          (probe_collections d response, None)
      end
  | None => (<["database" := DStr "⚠️  Available but not initialized"]> response, None)
  end.

(** [test_database], lines 33-66; [env] is the process environment. *)
Definition test_database (db : option Database) (env : gmap string string) : diag :=
  let response := initial_response in
  let response :=
    match probe_database db env response with
    | (response, None) => response
    | (response, Some e) =>
        <["database" := DStr ("❌ Error: " +:+ str_prefix 50 (exn_str e))]> response
    end in
  let response :=
    <["database_url" := DStr (set_or_not (env !! "DATABASE_URL"))]> response in
  <["database_name" := DStr (set_or_not (env !! "DATABASE_NAME"))]> response.

Definition six_keys : gset string :=
  {[ "backend"; "database"; "database_url"; "database_name";
     "connection_status"; "collections" ]}.

(** ** More sample data *)

(** A store that keeps its records on a shelf and hands out the first
    [limit] of them. *)
Definition shelf_get_documents (_ : string) (limit : option Z) (shelf : list dict)
  : result (list dict) * list dict :=
  (Ok (match limit with Some n => take (Z.to_nat n) shelf | None => shelf end), shelf).

Definition relabelled (i : CartItem) : CartItem :=
  {| ci_id := "other"; ci_name := "renamed"; price := price i; qty := qty i |}.

Definition two_records : heap := <[0%nat := raw_product]> (<[1%nat := raw_product]> ∅).

(** A database whose collections cannot be listed, and that says so in
    86 characters, some of them two bytes long. *)
Definition refusal : string :=
  "échec de l'authentification auprès du serveur de données: accès refusé à l'utilisateur".

Definition locked : Database :=
  {| db_name := Ok (Some "supermarket");
     list_collection_names := Raise (Exception "OperationFailure" refusal) |}.

(** ** Facts about the float operations used *)

Arguments fadd : simpl never.
Arguments fmul : simpl never.
Arguments fdiv : simpl never.
Arguments fsub : simpl never.
Arguments py_round : simpl never.
Arguments Z_to_float : simpl never.
Arguments dec : simpl never.

(** Closed goals are settled by evaluation. *)
Ltac run := vm_compute; reflexivity.

(** Look a key up through the inserts, deletes and alters of other keys. *)
Ltac other_key :=
  repeat first
    [ rewrite lookup_alter_ne by (discriminate || congruence)
    | rewrite lookup_insert_ne by (discriminate || congruence)
    | rewrite lookup_delete_ne by (discriminate || congruence) ].

Lemma float_literals :
  dec 0 1 = S754_zero false /\
  Z_to_float 0 = S754_zero false /\
  Z_to_float 25 = S754_finite false 7036874417766400 (-48) /\
  dec 7 2 = S754_finite false 5044031582654956 (-56) /\
  dec 499 2 = S754_finite false 5618240535144694 (-50).
Proof. repeat split; run. Qed.

(** The overflow bound of [int_to_float] is where the nearest double
    stops being finite. *)
Lemma DBL_OVERFLOW_boundary :
  Z_to_float (DBL_OVERFLOW - 1) = S754_finite false 9007199254740991 971 /\
  Z_to_float DBL_OVERFLOW = S754_infinity false /\
  Z_to_float (- DBL_OVERFLOW) = S754_infinity true.
Proof. repeat split; run. Qed.

(** Spot checks of [py_round] against CPython: [round(2.675, 2) == 2.67],
    [round(0.125, 2) == 0.12], [round(0.375, 2) == 0.38],
    [round(-0.001, 2) == -0.0], [round(2.5, 0) == 2.0]. *)
Lemma py_round_samples :
  py_round (dec 2675 3) 2 = dec 267 2 /\
  py_round (dec 125 3) 2 = dec 12 2 /\
  py_round (dec 375 3) 2 = dec 38 2 /\
  py_round (dec (-1) 3) 2 = S754_zero true /\
  py_round (dec 25 1) 0 = Z_to_float 2.
Proof. repeat split; run. Qed.

(** Both shipping amounts are already at two decimals. *)
Lemma py_round_shipping_fee (s : float) :
  py_round (shipping_fee s) 2 = shipping_fee s.
Proof.
  unfold shipping_fee.
  destruct (feqb s (Z_to_float 0) || fltb (Z_to_float 25) s); run.
Qed.

(** A negative float is neither equal to zero nor above 25. *)
Lemma negative_not_free (s : float) :
  fltb s (Z_to_float 0) = true ->
  feqb s (Z_to_float 0) = false /\ fltb (Z_to_float 25) s = false.
Proof.
  destruct float_literals as (_ & -> & -> & _).
  unfold fltb, feqb, SFltb, SFeqb.
  destruct s as [sg | sg | | sg m e]; simpl; try discriminate;
    destruct sg; simpl; try discriminate; auto.
Qed.

(** ** Exact arithmetic on whole numbers below 2^53

    A whole number of at most 53 bits is a float, and sums, differences
    and products of such numbers that stay below 2^53 are computed
    without rounding.  The proofs follow the rounding function bit by
    bit: the mantissa is the number shifted left, and the bits that
    rounding shifts out are zeros. *)

(** [m * 2^n], written so that it unfolds one bit at a time. *)
Lemma shiftl_nat_Z (m : positive) (n : nat) :
  Z.pos (Pos.shiftl_nat m n) = Z.pos m * 2 ^ Z.of_nat n.
Proof.
  induction n as [| n IH].
  - simpl. lia.
  - change (Pos.shiftl_nat m (S n)) with (xO (Pos.shiftl_nat m n)).
    rewrite Pos2Z.inj_xO, IH, Nat2Z.inj_succ, Z.pow_succ_r by lia. lia.
Qed.



Lemma digits2_pos_size (p : positive) : digits2_pos p = Pos.size p.
Proof. induction p as [p IH | p IH |]; simpl; rewrite ?IH; reflexivity. Qed.

Lemma digits2_bounds (p : positive) :
  2 ^ (Z.pos (digits2_pos p) - 1) <= Z.pos p < 2 ^ Z.pos (digits2_pos p).
Proof.
  rewrite digits2_pos_size. split.
  - pose proof (Pos.size_le p) as H.
    apply Pos2Z.pos_le_pos in H. rewrite Pos2Z.inj_pow, (Pos2Z.inj_xO p) in H.
    replace (Z.pos (Pos.size p)) with (Z.succ (Z.pos (Pos.size p) - 1)) in H by lia.
    rewrite Z.pow_succ_r in H by lia. lia.
  - pose proof (Pos.size_gt p) as H.
    apply Pos2Z.pos_lt_pos in H. rewrite Pos2Z.inj_pow in H. exact H.
Qed.

Lemma digits2_small (p : positive) :
  Z.pos p < 2 ^ 53 -> Z.pos (digits2_pos p) <= 53.
Proof.
  intros Hp. pose proof (digits2_bounds p) as [Hlo _].
  destruct (Z.le_gt_cases (Z.pos (digits2_pos p)) 53) as [H | H]; [exact H |].
  exfalso.
  assert (2 ^ 53 <= 2 ^ (Z.pos (digits2_pos p) - 1)) by (apply Z.pow_le_mono_r; lia).
  lia.
Qed.

Lemma iter_pos_nat {A} (f : A -> A) (p : positive) (x : A) :
  SpecFloat.iter_pos f p x = Nat.iter (Pos.to_nat p) f x.
Proof.
  revert x. induction p as [p IH | p IH |]; intros x; cbn [SpecFloat.iter_pos].
  - rewrite !IH, Pos2Nat.inj_xI.
    rewrite <- Nat.iter_add. rewrite <- Nat.iter_succ_r.
    f_equal. lia.
  - rewrite !IH, Pos2Nat.inj_xO. rewrite <- Nat.iter_add. f_equal. lia.
  - reflexivity.
Qed.








Lemma shl_align_Z (m : positive) (e ez : Z) :
  ez <= e ->
  Z.pos (fst (shl_align m e ez)) = Z.pos m * 2 ^ (e - ez).
Proof.
  intros Hle. unfold shl_align.
  remember (ez - e) as n eqn:Hn. destruct n as [| p | p]; cbn [fst].
  - replace (e - ez) with 0 by lia. lia.
  - lia.
  - rewrite Pos2Nat.inj_iter.
    change (nat_rect (fun _ => positive) m (fun _ => xO) (Pos.to_nat p))
      with (Pos.shiftl_nat m (Pos.to_nat p)).
    rewrite shiftl_nat_Z. f_equal. f_equal. lia.
Qed.








(** ** Facts about the cart summary *)

Lemma compute_cart_summary_of_subtotal (alg : sum_algorithm)
    (items : list CartItem) (s : float) :
  cart_subtotal alg items = Ok s ->
  compute_cart_summary alg items =
    Ok {| subtotal := py_round s 2;
          tax := py_round (fmul s (dec 7 2)) 2;
          shipping := py_round (shipping_fee s) 2;
          total := py_round (fadd (fadd s (py_round (fmul s (dec 7 2)) 2))
                                  (shipping_fee s)) 2 |}.
Proof. intros Hs. unfold compute_cart_summary. rewrite Hs. reflexivity. Qed.

Lemma compute_cart_summary_raises (alg : sum_algorithm)
    (items : list CartItem) (e : exn) :
  cart_subtotal alg items = Raise e -> compute_cart_summary alg items = Raise e.
Proof. intros Hs. unfold compute_cart_summary. rewrite Hs. reflexivity. Qed.

Lemma line_total_fits (i : CartItem) :
  Z.abs (qty i) < DBL_OVERFLOW ->
  line_total i = Ok (line_value i).
Proof.
  intros Hq. unfold line_total, int_to_float.
  destruct (Z.leb_spec DBL_OVERFLOW (Z.abs (qty i))) as [Hge | _]; [lia | reflexivity].
Qed.

Lemma line_total_inv (i : CartItem) (v : float) :
  line_total i = Ok v -> v = line_value i /\ Z.abs (qty i) < DBL_OVERFLOW.
Proof.
  unfold line_total, int_to_float.
  destruct (Z.leb_spec DBL_OVERFLOW (Z.abs (qty i))); simpl; [discriminate |].
  intros [= <-]. split; [reflexivity | assumption].
Qed.

Lemma line_total_raises (i : CartItem) (e : exn) :
  line_total i = Raise e ->
  e = Exception "OverflowError" "int too large to convert to float" /\
  DBL_OVERFLOW <= Z.abs (qty i).
Proof.
  unfold line_total, int_to_float.
  destruct (Z.leb_spec DBL_OVERFLOW (Z.abs (qty i))); simpl; [| discriminate].
  intros [= <-]. split; [reflexivity | assumption].
Qed.

(** When every quantity converts, the generator yields the line values. *)
Lemma line_totals_fit (items : list CartItem) :
  Forall (fun i => Z.abs (qty i) < DBL_OVERFLOW) items ->
  map line_total items = map Ok (map line_value items).
Proof.
  induction 1 as [| i rest Hi _ IH]; simpl; [reflexivity |].
  rewrite (line_total_fits i Hi), IH. reflexivity.
Qed.

(** The first line that does not convert ends the sum, whichever way the
    floats before it were added. *)
Lemma line_totals_split (items : list CartItem) :
  Forall (fun i => Z.abs (qty i) < DBL_OVERFLOW) items \/
  exists before i after,
    items = (before ++ i :: after)%list /\
    Forall (fun i => Z.abs (qty i) < DBL_OVERFLOW) before /\
    DBL_OVERFLOW <= Z.abs (qty i).
Proof.
  induction items as [| i rest IH]; [left; constructor |].
  destruct (Z.lt_ge_cases (Z.abs (qty i)) DBL_OVERFLOW) as [Hlt | Hge].
  - destruct IH as [Hall | (before & j & after & -> & Hbefore & Hj)].
    + left. constructor; assumption.
    + right. exists (i :: before), j, after.
      split; [reflexivity |]. split; [constructor; assumption | exact Hj].
  - right. exists [], i, rest. split; [reflexivity |]. split; [constructor | exact Hge].
Qed.

Lemma py_sum_from_values (xs : list float) (acc : float) :
  py_sum_from acc (map Ok xs) = Ok (fold_left fadd xs acc).
Proof.
  revert acc. induction xs as [| x rest IH]; intros acc; simpl; [reflexivity | apply IH].
Qed.

Lemma py_sum_compensated_values (xs : list float) (f c : float) :
  py_sum_compensated f c (map Ok xs)
  = Ok (compensated_finish (fold_left compensated_step xs (f, c))).
Proof.
  revert f c. induction xs as [| x rest IH]; intros f c; simpl; [reflexivity |].
  apply IH.
Qed.

Lemma py_sum_from_stops (before : list float) (r : result float)
    (after : list (result float)) (e : exn) (acc : float) :
  r = Raise e ->
  py_sum_from acc (map Ok before ++ r :: after)%list = Raise e.
Proof.
  intros ->. revert acc.
  induction before as [| x rest IH]; intros acc; simpl; [reflexivity | apply IH].
Qed.

Lemma py_sum_compensated_stops (before : list float) (r : result float)
    (after : list (result float)) (e : exn) (f c : float) :
  r = Raise e ->
  py_sum_compensated f c (map Ok before ++ r :: after)%list = Raise e.
Proof.
  intros ->. revert f c.
  induction before as [| x rest IH]; intros f c; simpl; [reflexivity | apply IH].
Qed.

(** The subtotal is computed exactly when every quantity converts. *)
Lemma cart_subtotal_fits (alg : sum_algorithm) (items : list CartItem) :
  Forall (fun i => Z.abs (qty i) < DBL_OVERFLOW) items ->
  exists s, cart_subtotal alg items = Ok s.
Proof.
  intros Hfit. unfold cart_subtotal, py_sum. rewrite (line_totals_fit _ Hfit).
  destruct alg.
  - rewrite py_sum_from_values. eauto.
  - destruct (map line_value items) as [| x rest]; simpl; [eauto |].
    rewrite py_sum_compensated_values. eauto.
Qed.

Lemma cart_subtotal_overflows (alg : sum_algorithm) (items : list CartItem) :
  Exists (fun i => DBL_OVERFLOW <= Z.abs (qty i)) items ->
  cart_subtotal alg items
  = Raise (Exception "OverflowError" "int too large to convert to float").
Proof.
  intros Hbig.
  destruct (line_totals_split items) as [Hall | (before & i & after & -> & Hbefore & Hi)].
  - exfalso. rewrite Exists_exists in Hbig. destruct Hbig as (i & Hin & Hi).
    rewrite Forall_forall in Hall. specialize (Hall i Hin). lia.
  - assert (Hraise : line_total i
                     = Raise (Exception "OverflowError" "int too large to convert to float")).
    { unfold line_total, int_to_float.
      destruct (Z.leb_spec DBL_OVERFLOW (Z.abs (qty i))); [reflexivity | lia]. }
    unfold cart_subtotal, py_sum.
    rewrite map_app, (line_totals_fit _ Hbefore). cbn [map].
    destruct alg.
    + apply py_sum_from_stops, Hraise.
    + destruct (map line_value before) as [| x rest]; cbn [map app].
      * rewrite Hraise. reflexivity.
      * cbn [bind]. apply py_sum_compensated_stops, Hraise.
Qed.

Lemma cart_subtotal_ok_fits (alg : sum_algorithm) (items : list CartItem) (s : float) :
  cart_subtotal alg items = Ok s ->
  Forall (fun i => Z.abs (qty i) < DBL_OVERFLOW) items.
Proof.
  intros Hs.
  destruct (line_totals_split items) as [Hall | (before & i & after & -> & _ & Hi)];
    [exact Hall |].
  rewrite cart_subtotal_overflows in Hs; [discriminate |].
  apply Exists_app. right. left. exact Hi.
Qed.

(** With the left-to-right sum the subtotal is [sigma_price_qty]. *)
Lemma cart_subtotal_left_to_right (items : list CartItem) :
  Forall (fun i => Z.abs (qty i) < DBL_OVERFLOW) items ->
  cart_subtotal LeftToRight items = Ok (sigma_price_qty items).
Proof.
  intros Hfit. unfold cart_subtotal, py_sum, sigma_price_qty.
  rewrite (line_totals_fit _ Hfit), py_sum_from_values.
  destruct float_literals as (_ & -> & _). f_equal.
  generalize (S754_zero false).
  induction items as [| i rest IH]; intros acc; simpl; [reflexivity | apply IH].
  inversion Hfit; assumption.
Qed.

Lemma cart_subtotal_inv (items : list CartItem) (s : float) :
  cart_subtotal LeftToRight items = Ok s -> s = sigma_price_qty items.
Proof.
  intros Hs. pose proof (cart_subtotal_ok_fits _ _ _ Hs) as Hfit.
  rewrite (cart_subtotal_left_to_right _ Hfit) in Hs. congruence.
Qed.

(** ** Whole-number carts *)









(** ** The cart summary: shipping, rounding, subtotal *)

(** C1. Whenever the subtotal of a cart is computed, the summary is
    returned and its shipping is [0.0] if the subtotal equals 0 or is
    strictly greater than 25, and [4.99] otherwise.  In particular a
    subtotal of exactly [25.00] gets [4.99] and a subtotal of [25.01]
    gets [0.0]. *)
Theorem shipping_rule (alg : sum_algorithm) (items : list CartItem) (s : float) :
  cart_subtotal alg items = Ok s ->
  exists r,
    compute_cart_summary alg items = Ok r /\
    shipping r = (if feqb s (Z_to_float 0) || fltb (Z_to_float 25) s
                  then dec 0 1 else dec 499 2) /\
    (s = dec 2500 2 -> shipping r = dec 499 2) /\
    (s = dec 2501 2 -> shipping r = dec 0 1).
Proof.
  intros Hs. eexists. split; [apply compute_cart_summary_of_subtotal, Hs |].
  cbn [shipping]. rewrite py_round_shipping_fee.
  split; [reflexivity |].
  split; intros ->; run.
Qed.

Lemma shipping_rule_witness :
  cart_subtotal Compensated [item (dec 2500 2) 1] = Ok (dec 2500 2) /\
  exists r,
    compute_cart_summary Compensated [item (dec 2500 2) 1] = Ok r /\
    shipping r = dec 499 2.
Proof.
  assert (Hs : cart_subtotal Compensated [item (dec 2500 2) 1] = Ok (dec 2500 2))
    by run.
  split; [exact Hs |].
  destruct (shipping_rule Compensated [item (dec 2500 2) 1] (dec 2500 2) Hs)
    as (r & Hr & _ & H25 & _).
  exists r. split; [exact Hr | apply H25; reflexivity].
Defined.

(** The same two boundary carts, run through the whole operation. *)
Lemma shipping_boundary_runs (alg : sum_algorithm) :
  compute_cart_summary alg [item (dec 2500 2) 1] =
    Ok {| subtotal := dec 2500 2; tax := dec 175 2;
          shipping := dec 499 2; total := dec 3174 2 |} /\
  compute_cart_summary alg [item (dec 2501 2) 1] =
    Ok {| subtotal := dec 2501 2; tax := dec 175 2;
          shipping := dec 0 1; total := dec 2676 2 |}.
Proof. destruct alg; split; run. Qed.

(** The two ways of summing can disagree from three items on, and the
    shipping with them: 0.01 + 4.48 + 20.51 is 25.0 left to right, which
    pays 4.99, and 25.000000000000004 with compensation, which ships
    free. *)
Lemma sum_algorithms_differ :
  let cart := [item (dec 1 2) 1; item (dec 448 2) 1; item (dec 2051 2) 1] in
  cart_subtotal LeftToRight cart = Ok (S754_finite false 7036874417766400 (-48)) /\
  cart_subtotal Compensated cart = Ok (S754_finite false 7036874417766401 (-48)) /\
  (exists r, compute_cart_summary LeftToRight cart = Ok r /\ shipping r = dec 499 2) /\
  (exists r, compute_cart_summary Compensated cart = Ok r /\ shipping r = dec 0 1).
Proof.
  cbv zeta. split; [run |]. split; [run |].
  split; eexists; (split; [run | reflexivity]).
Qed.

(** Ten items at 0.1: left to right the subtotal is 0.9999999999999999,
    with compensation it is 1.0. *)
Lemma ten_tenths :
  cart_subtotal LeftToRight (replicate 10 (item (dec 1 1) 1))
    = Ok (S754_finite false 9007199254740991 (-53)) /\
  cart_subtotal Compensated (replicate 10 (item (dec 1 1) 1)) = Ok (Z_to_float 1).
Proof. split; run. Qed.



(** The order matters: for a subtotal of [0.2143] the tax is [0.02],
    where a tax taken from the rounded subtotal [0.21] would be [0.01]. *)
Lemma tax_from_unrounded_subtotal (alg : sum_algorithm) :
  exists r,
    compute_cart_summary alg [item (dec 2143 4) 1] = Ok r /\
    subtotal r = dec 21 2 /\
    tax r = dec 2 2 /\
    py_round (fmul (subtotal r) (dec 7 2)) 2 = dec 1 2.
Proof. destruct alg; (eexists; split; [run |]); repeat split; run. Qed.




(** C7. One item of price 10 and quantity 2 gives subtotal 20.00, tax
    1.4, shipping 4.99 and total 26.39; no items give 0 for all four. *)
Theorem cart_summary_examples (alg : sum_algorithm) :
  compute_cart_summary alg [item (Z_to_float 10) 2] =
    Ok {| subtotal := dec 2000 2; tax := dec 14 1;
          shipping := dec 499 2; total := dec 2639 2 |} /\
  compute_cart_summary alg [] =
    Ok {| subtotal := Z_to_float 0; tax := Z_to_float 0;
          shipping := Z_to_float 0; total := Z_to_float 0 |}.
Proof. destruct alg; split; run. Qed.

(** C9, as the code has it.  Only [qty] is bounded at the boundary, so
    prices may be negative.  For every cart whose quantities all convert to
    a float (they are below 2^1024 - 2^970) the operation succeeds, and
    when the unrounded subtotal it computes is negative it charges shipping
    4.99; a cart with a larger quantity raises [OverflowError]; and a cart
    that passes validation can have a negative total. *)
Theorem negative_subtotal_pays_shipping :
  (forall (alg : sum_algorithm) (items : list CartItem),
      Forall (fun i => Z.abs (qty i) < DBL_OVERFLOW) items ->
      exists s r,
        cart_subtotal alg items = Ok s /\
        compute_cart_summary alg items = Ok r /\
        (fltb s (Z_to_float 0) = true ->
         shipping r = dec 499 2 /\
         total r = py_round (fadd (fadd s (tax r)) (dec 499 2)) 2)) /\
  (forall (alg : sum_algorithm) (items : list CartItem),
      Exists (fun i => DBL_OVERFLOW <= Z.abs (qty i)) items ->
      compute_cart_summary alg items
      = Raise (Exception "OverflowError" "int too large to convert to float")) /\
  (forall alg : sum_algorithm,
      exists (items : list CartItem) (r : CartSummary),
        Forall (fun i => CartItem_valid i = true) items /\
        compute_cart_summary alg items = Ok r /\
        fltb (total r) (Z_to_float 0) = true).
Proof.
  split; [| split].
  - intros alg items Hfit.
    destruct (cart_subtotal_fits alg items Hfit) as [s Hs].
    exists s. eexists. split; [exact Hs |].
    split; [apply compute_cart_summary_of_subtotal, Hs |].
    intros Hneg. destruct (negative_not_free s Hneg) as [Hz H25].
    assert (Hfee : shipping_fee s = dec 499 2)
      by (unfold shipping_fee; rewrite Hz, H25; reflexivity).
    cbn [shipping tax total]. rewrite Hfee.
    split; [run | reflexivity].
  - intros alg items Hbig.
    apply compute_cart_summary_raises, cart_subtotal_overflows, Hbig.
  - intros alg. exists [item (dec (-5) 0) 2]. eexists.
    split; [repeat constructor |].
    destruct alg; split; run.
Qed.

Lemma negative_subtotal_pays_shipping_witness :
  Forall (fun i => Z.abs (qty i) < DBL_OVERFLOW) [item (dec (-5) 0) 2] /\
  exists s r,
    cart_subtotal LeftToRight [item (dec (-5) 0) 2] = Ok s /\
    compute_cart_summary LeftToRight [item (dec (-5) 0) 2] = Ok r /\
    shipping r = dec 499 2.
Proof.
  assert (Hfit : Forall (fun i => Z.abs (qty i) < DBL_OVERFLOW) [item (dec (-5) 0) 2])
    by (repeat constructor; reflexivity).
  split; [exact Hfit |].
  destruct (proj1 negative_subtotal_pays_shipping LeftToRight _ Hfit)
    as (s & r & Hs & Hr & Hneg).
  exists s, r. split; [exact Hs |]. split; [exact Hr |].
  apply Hneg.
  assert (Hs' : cart_subtotal LeftToRight [item (dec (-5) 0) 2] = Ok (Z_to_float (-10)))
    by run.
  rewrite Hs' in Hs. injection Hs as <-. reflexivity.
Defined.

(** C9, as the claim states it, fails: one item of price -1 and quantity
    2^1024 passes validation and has a negative exact subtotal, and the
    operation does not succeed on it. *)
Lemma negative_subtotal_overflows :
  CartItem_valid (item (Z_to_float (-1)) (2 ^ 1024)) = true /\
  (exists e, exact_subtotal [item (Z_to_float (-1)) (2 ^ 1024)] = Some e /\ (e < 0)%Q) /\
  (forall alg,
      compute_cart_summary alg [item (Z_to_float (-1)) (2 ^ 1024)]
      = Raise (Exception "OverflowError" "int too large to convert to float")).
Proof.
  split; [reflexivity |]. split.
  - eexists. split; [reflexivity |]. unfold Qlt. vm_compute. reflexivity.
  - intros []; run.
Qed.

(** Even when the operation succeeds, a negative exact subtotal does not
    force the fee.  The five prices below add up to -1 exactly, but -2^53
    and -1 are below the last bit of -2^106 and are lost when they are
    added to it: the subtotal is computed as 2^53 left to right and as 0
    with compensation, and either way the cart ships free. *)
Lemma negative_exact_subtotal_can_ship_free :
  let cart := [item (Z_to_float (- 2 ^ 106)) 1; item (Z_to_float (- 2 ^ 53)) 1;
               item (Z_to_float (- 1)) 1; item (Z_to_float (2 ^ 106)) 1;
               item (Z_to_float (2 ^ 53)) 1] in
  (exists e, exact_subtotal cart = Some e /\ (e == - (1))%Q) /\
  cart_subtotal LeftToRight cart = Ok (Z_to_float (2 ^ 53)) /\
  cart_subtotal Compensated cart = Ok (Z_to_float 0) /\
  (forall alg, exists r, compute_cart_summary alg cart = Ok r /\ shipping r = dec 0 1).
Proof.
  cbv zeta. split; [eexists; split; [reflexivity | vm_compute; reflexivity] |].
  split; [run |]. split; [run |].
  intros []; eexists; (split; [run | reflexivity]).
Qed.

(** ** Facts about record normalisation *)

Lemma timestamp_value_no_isoformat (v : value) :
  has_isoformat v = false -> timestamp_value v = v.
Proof. destruct v; simpl; congruence. Qed.

Lemma serialize_timestamp_alter (k : string) (d : dict) :
  serialize_timestamp k d = Ok (alter timestamp_value k d).
Proof.
  unfold serialize_timestamp, dict_contains, dict_getitem, dict_setitem.
  rewrite alter_alt.
  destruct (d !! k) as [v |] eqn:Hk.
  - rewrite bool_decide_eq_true_2 by eauto. simpl.
    destruct v; simpl; rewrite ?Hk; reflexivity.
  - rewrite bool_decide_eq_false_2 by (intros [? ?]; discriminate). reflexivity.
Qed.

(** Normalisation never raises, and this is the record it leaves. *)
Lemma normalize_record_ok (d : dict) :
  normalize_record d = Ok (normalized_form d).
Proof.
  unfold normalize_record, normalized_form, dict_pop, dict_setitem.
  destruct (d !! "_id") as [oid |] eqn:Hid.
  - rewrite serialize_timestamp_alter. cbn [bind].
    rewrite serialize_timestamp_alter. reflexivity.
  - rewrite serialize_timestamp_alter. cbn [bind].
    rewrite serialize_timestamp_alter, (delete_id d "_id" Hid). reflexivity.
Qed.

Lemma normalize_docs_ok (docs : list dict) :
  normalize_docs docs = Ok (map normalized_form docs).
Proof.
  induction docs as [| d rest IH]; simpl.
  - reflexivity.
  - rewrite normalize_record_ok, IH. reflexivity.
Qed.

Lemma normalized_form_lookup_internal_id (d : dict) :
  normalized_form d !! "_id" = None.
Proof.
  unfold normalized_form. other_key. apply lookup_delete_eq.
Qed.

Lemma normalized_form_lookup_id (d : dict) :
  normalized_form d !! "id" =
    Some (VStr (match d !! "_id" with Some oid => py_str oid | None => "" end)).
Proof.
  unfold normalized_form. other_key. apply lookup_insert_eq.
Qed.

Lemma normalized_form_lookup_timestamp (d : dict) (k : string) :
  k = "created_at" \/ k = "updated_at" ->
  normalized_form d !! k = timestamp_value <$> d !! k.
Proof.
  unfold normalized_form. intros [-> | ->].
  - other_key. rewrite lookup_alter_eq. other_key. reflexivity.
  - rewrite lookup_alter_eq. other_key. reflexivity.
Qed.

Lemma normalized_form_lookup_other (d : dict) (k : string) :
  k <> "_id" -> k <> "id" -> k <> "created_at" -> k <> "updated_at" ->
  normalized_form d !! k = d !! k.
Proof.
  intros H1 H2 H3 H4. unfold normalized_form. other_key. reflexivity.
Qed.

Lemma normalized_form_is_normalized (d : dict) :
  is_normalized (normalized_form d).
Proof.
  split; [rewrite normalized_form_lookup_id; eauto |].
  split; [apply normalized_form_lookup_internal_id |].
  split; intros v; rewrite normalized_form_lookup_timestamp by auto;
    destruct (d !! _) as [w |]; simpl; try discriminate;
    intros [= <-]; destruct w; reflexivity.
Qed.

Lemma normalized_form_of_normalized (d : dict) :
  is_normalized d -> normalized_form d = <["id" := VStr ""]> d.
Proof.
  intros (_ & Hid & Hc & Hu). unfold normalized_form.
  rewrite Hid, (delete_id d "_id" Hid).
  rewrite (alter_id timestamp_value (<["id" := VStr ""]> d) "created_at").
  - apply alter_id. intros v. rewrite lookup_insert_ne by discriminate.
    intros Hv. apply timestamp_value_no_isoformat, Hu, Hv.
  - intros v. rewrite lookup_insert_ne by discriminate.
    intros Hv. apply timestamp_value_no_isoformat, Hc, Hv.
Qed.

Lemma normalize_raw_product :
  normalize_record raw_product = Ok normalized_product.
Proof. run. Qed.

Lemma normalized_product_is_normalized : is_normalized normalized_product.
Proof.
  assert (H : normalized_form raw_product = normalized_product)
    by (pose proof normalize_raw_product as H;
        rewrite normalize_record_ok in H; congruence).
  rewrite <- H. apply normalized_form_is_normalized.
Qed.

(** ** Record normalisation: identifier, timestamps, frame *)

(** C4. Normalising a raw record removes the key [_id] and puts its
    string form under [id]; a record with no [_id] gets the empty string
    under [id]; in either case [_id] is absent from the output. *)
Theorem normalize_record_renames_id (d : dict) :
  exists d',
    normalize_record d = Ok d' /\
    d' !! "_id" = None /\
    (forall oid, d !! "_id" = Some oid -> d' !! "id" = Some (VStr (py_str oid))) /\
    (d !! "_id" = None -> d' !! "id" = Some (VStr "")).
Proof.
  exists (normalized_form d). split; [apply normalize_record_ok |].
  split; [apply normalized_form_lookup_internal_id |].
  rewrite normalized_form_lookup_id.
  split; [intros oid -> | intros ->]; reflexivity.
Qed.

(** C5, as the code has it.  Normalising an already normalised mapping
    again leaves every key other than [id] unchanged and sets [id] to the
    empty string (there is no [_id] left to take it from); the result is
    then a fixed point of normalisation. *)
Theorem renormalize_resets_id (d : dict) :
  is_normalized d ->
  exists d',
    normalize_record d = Ok d' /\
    d' !! "id" = Some (VStr "") /\
    (forall k, k <> "id" -> d' !! k = d !! k) /\
    normalize_record d' = Ok d'.
Proof.
  intros Hn. exists (<["id" := VStr ""]> d).
  split; [rewrite normalize_record_ok, normalized_form_of_normalized by exact Hn;
          reflexivity |].
  split; [apply lookup_insert_eq |].
  split; [intros k Hk; apply lookup_insert_ne; congruence |].
  rewrite normalize_record_ok. f_equal.
  rewrite <- (normalized_form_of_normalized d Hn) at 1.
  rewrite (normalized_form_of_normalized _ (normalized_form_is_normalized d)).
  rewrite (normalized_form_of_normalized d Hn). apply insert_insert_eq.
Qed.

Lemma renormalize_resets_id_witness :
  is_normalized normalized_product /\
  exists d',
    normalize_record normalized_product = Ok d' /\
    d' !! "id" = Some (VStr "") /\
    d' !! "title" = Some (VStr "Milk").
Proof.
  pose proof normalized_product_is_normalized as Hn.
  split; [exact Hn |].
  destruct (renormalize_resets_id normalized_product Hn) as (d' & Hd' & Hid & Hrest & _).
  exists d'. split; [exact Hd' |]. split; [exact Hid |].
  rewrite Hrest by discriminate. reflexivity.
Defined.

(** C5, as the claim states it, fails: the normalised product is in
    normalised shape, and normalising it once more changes it (its [id]
    becomes the empty string). *)
Lemma renormalize_not_idempotent :
  normalize_record raw_product = Ok normalized_product /\
  is_normalized normalized_product /\
  normalize_record normalized_product <> Ok normalized_product.
Proof.
  split; [apply normalize_raw_product |].
  pose proof normalized_product_is_normalized as Hn.
  split; [exact Hn |].
  rewrite normalize_record_ok, (normalized_form_of_normalized _ Hn).
  intros Heq.
  assert (Hid : (<["id" := VStr ""]> normalized_product : dict) !! "id"
                = normalized_product !! "id") by congruence.
  rewrite lookup_insert_eq in Hid.
  unfold normalized_product in Hid. rewrite lookup_insert_eq in Hid.
  discriminate.
Qed.

(** C6. For each of [created_at] and [updated_at]: a value with an
    [isoformat] (a datetime) is replaced by its ISO-8601 string; a value
    without one is passed through unchanged; a missing key stays missing.
    Normalisation returns in every case: no exception is raised. *)
Theorem timestamps_serialized (d : dict) :
  exists d',
    normalize_record d = Ok d' /\
    forall k, k = "created_at" \/ k = "updated_at" ->
      (forall dt, d !! k = Some (VDatetime dt) ->
                  d' !! k = Some (VStr (datetime_isoformat "T" dt))) /\
      (forall v, d !! k = Some v -> has_isoformat v = false -> d' !! k = Some v) /\
      (d !! k = None -> d' !! k = None).
Proof.
  exists (normalized_form d). split; [apply normalize_record_ok |].
  intros k Hk. rewrite (normalized_form_lookup_timestamp d k Hk).
  split; [intros dt -> | split; [intros v -> Hv | intros ->]]; simpl.
  - reflexivity.
  - rewrite (timestamp_value_no_isoformat v Hv). reflexivity.
  - reflexivity.
Qed.

(** A run of C6: the product's datetime becomes ["2024-03-05T07:08:09"],
    and it has no [updated_at] before or after. *)
Lemma timestamps_serialized_run :
  exists d',
    normalize_record raw_product = Ok d' /\
    d' !! "created_at" = Some (VStr "2024-03-05T07:08:09") /\
    d' !! "updated_at" = None.
Proof.
  exists normalized_product. split; [apply normalize_raw_product |].
  split; reflexivity.
Qed.

(** C10. Every key other than [_id], [id], [created_at] and
    [updated_at] is in the output exactly as it was in the input. *)
Theorem normalize_record_frame (d : dict) (k : string) :
  k <> "_id" -> k <> "id" -> k <> "created_at" -> k <> "updated_at" ->
  exists d',
    normalize_record d = Ok d' /\
    d' !! k = d !! k.
Proof.
  intros H1 H2 H3 H4. exists (normalized_form d).
  split; [apply normalize_record_ok |].
  apply normalized_form_lookup_other; assumption.
Qed.

Lemma normalize_record_frame_witness :
  exists d',
    normalize_record raw_product = Ok d' /\
    d' !! "title" = Some (VStr "Milk").
Proof.
  destruct (normalize_record_frame raw_product "title")
    as (d' & Hd' & Hk); try discriminate.
  exists d'. split; [exact Hd' |]. rewrite Hk. reflexivity.
Defined.

(** ** Store errors at the endpoints *)

(** The loop over the fetched records never raises, so a listing fails
    only when the store does. *)
Lemma list_products_returns (store : Type)
    (get_documents : string -> option Z -> store -> result (list dict) * store)
    (limit : option Z) (st st' : store) (docs : list dict) :
  get_documents "product" limit st = (Ok docs, st') ->
  list_products store get_documents limit st =
    (Returns {| items := map normalized_form docs |}, st').
Proof.
  intros Hget. unfold list_products. rewrite Hget. cbn [bind].
  rewrite normalize_docs_ok. reflexivity.
Qed.

Lemma list_users_returns (store : Type)
    (get_documents : string -> option Z -> store -> result (list dict) * store)
    (limit : option Z) (st st' : store) (docs : list dict) :
  get_documents "user" limit st = (Ok docs, st') ->
  list_users store get_documents limit st =
    (Returns {| items := map normalized_form docs |}, st').
Proof.
  intros Hget. unfold list_users. rewrite Hget. cbn [bind].
  rewrite normalize_docs_ok. reflexivity.
Qed.

(** C8. Whatever exception the store raises on an insert or a fetch,
    each of the four product and user endpoints answers with an HTTP 500
    whose detail is the exception's message, for every class of
    exception alike, and leaves the store as that one failed call left
    it: the call is not made again. *)
Theorem store_errors_become_500 (store : Type)
    (create_document : string -> payload -> store -> result value * store)
    (get_documents : string -> option Z -> store -> result (list dict) * store)
    (st st' : store) (e : exn) :
  (forall p, create_document "product" (ProductPayload p) st = (Raise e, st') ->
             create_product store create_document p st
             = (HTTPException 500 (exn_str e), st')) /\
  (forall limit, get_documents "product" limit st = (Raise e, st') ->
                 list_products store get_documents limit st
                 = (HTTPException 500 (exn_str e), st')) /\
  (forall u, create_document "user" (UserPayload u) st = (Raise e, st') ->
             create_user store create_document u st
             = (HTTPException 500 (exn_str e), st')) /\
  (forall limit, get_documents "user" limit st = (Raise e, st') ->
                 list_users store get_documents limit st
                 = (HTTPException 500 (exn_str e), st')).
Proof.
  repeat split; intros x Hcall;
    unfold create_product, list_products, create_user, list_users;
    rewrite Hcall; reflexivity.
Qed.

Lemma store_errors_become_500_witness :
  down_create_document "product" (ProductPayload milk) 0%nat = (Raise down, 1%nat) /\
  create_product nat down_create_document milk 0%nat
  = (HTTPException 500 "localhost:27017: connection refused", 1%nat) /\
  list_products nat down_get_documents (Some 50) 0%nat
  = (HTTPException 500 "localhost:27017: connection refused", 1%nat).
Proof.
  destruct (store_errors_become_500 nat down_create_document down_get_documents
              0%nat 1%nat down) as (Hcreate & Hlist & _).
  split; [reflexivity |].
  split; [apply Hcreate | apply Hlist]; reflexivity.
Defined.

(** ** More on the cart summary *)

Lemma not_below_zero_fltb (f : float) :
  fltb f (Z_to_float 0) = false <-> not_below_zero f = true.
Proof.
  destruct float_literals as (_ & -> & _).
  unfold fltb, SFltb.
  destruct f as [sg | sg | | sg m e]; simpl; try destruct sg; simpl; split; congruence.
Qed.

Lemma binary_round_aux_not_below_zero (p e' : Z) (m e : Z) (l : location) :
  not_below_zero (binary_round_aux p e' false m e l) = true.
Proof.
  unfold binary_round_aux.
  destruct (shr_fexp p e' m e l) as [mrs1 e1].
  destruct (shr_fexp p e' _ e1 loc_Exact) as [mrs2 e2].
  destruct (shr_m mrs2); [reflexivity | | reflexivity].
  destruct (e2 <=? e' - p); reflexivity.
Qed.

Lemma binary_round_not_below_zero (p e' : Z) (m : positive) (e : Z) :
  not_below_zero (binary_round p e' false m e) = true.
Proof.
  unfold binary_round.
  destruct (shl_align m e _) as [mz ez].
  apply binary_round_aux_not_below_zero.
Qed.

Lemma fmul_not_below_zero (x y : float) :
  not_below_zero x = true -> not_below_zero y = true ->
  not_below_zero (fmul x y) = true.
Proof.
  unfold fmul, SFmul.
  destruct x as [sx | sx | | sx mx ex], y as [sy | sy | | sy my ey];
    try destruct sx; try destruct sy; simpl; try congruence; intros _ _;
    apply binary_round_aux_not_below_zero.
Qed.

Lemma fadd_not_below_zero (x y : float) :
  not_below_zero x = true -> not_below_zero y = true ->
  not_below_zero (fadd x y) = true.
Proof.
  unfold fadd, SFadd.
  destruct x as [sx | sx | | sx mx ex], y as [sy | sy | | sy my ey];
    try destruct sx; try destruct sy; simpl; try congruence; intros _ _.
  unfold binary_normalize. 
  destruct (shl_align mx ex _) as [a ?], (shl_align my ey _) as [b ?]. simpl.
  apply binary_round_not_below_zero.
Qed.

Lemma Z_to_float_not_below_zero (z : Z) :
  0 <= z -> not_below_zero (Z_to_float z) = true.
Proof.
  intros Hz. unfold Z_to_float, binary_normalize.
  destruct z as [| p | p]; [reflexivity | | lia].
  apply binary_round_not_below_zero.
Qed.

Lemma py_round_not_below_zero (x : float) (n : nat) :
  not_below_zero x = true -> not_below_zero (py_round x n) = true.
Proof.
  unfold py_round.
  destruct x as [sx | sx | | sx mx ex]; try (intros H; exact H).
  destruct sx; [discriminate |]. intros _.
  destruct (323 <? Z.of_nat n); [reflexivity |].
  destruct (if 0 <=? ex then _ else _) as [| p | p]; try reflexivity.
  destruct (10 ^ Z.of_nat n) as [| sc | sc]; try reflexivity.
  unfold fdiv, SFdiv.
  destruct (SFdiv_core_binary prec emax (Z.pos p) 0 (Z.pos sc) 0) as [[mz ez] lz].
  apply binary_round_aux_not_below_zero.
Qed.

Lemma shipping_fee_not_below_zero (s : float) :
  not_below_zero (shipping_fee s) = true.
Proof.
  unfold shipping_fee.
  destruct (feqb s (Z_to_float 0) || fltb (Z_to_float 25) s); run.
Qed.

Lemma sigma_not_below_zero (items : list CartItem) :
  forall acc,
    not_below_zero acc = true ->
    Forall (fun i => fltb (price i) (Z_to_float 0) = false /\ 0 <= qty i) items ->
    not_below_zero
      (fold_left (fun a i => fadd a (fmul (price i) (Z_to_float (qty i)))) items acc)
    = true.
Proof.
  induction items as [| i rest IH]; intros acc Hacc Hall; simpl.
  - exact Hacc.
  - inversion Hall as [| ? ? [Hp Hq] Hrest]; subst.
    apply IH; [| exact Hrest].
    apply fadd_not_below_zero; [exact Hacc |].
    apply fmul_not_below_zero.
    + apply not_below_zero_fltb, Hp.
    + apply Z_to_float_not_below_zero, Hq.
Qed.

Lemma sigma_zero_quantities (items : list CartItem) :
  Forall (fun i => qty i = 0 /\ is_finite (price i) = true) items ->
  fold_left (fun a i => fadd a (fmul (price i) (Z_to_float (qty i)))) items (S754_zero false)
  = S754_zero false.
Proof.
  induction items as [| i rest IH]; intros Hall; simpl.
  - reflexivity.
  - inversion Hall as [| ? ? [Hq Hp] Hrest]; subst.
    rewrite Hq.
    assert (Hz : fadd (S754_zero false) (fmul (price i) (Z_to_float 0)) = S754_zero false).
    { destruct float_literals as (_ & -> & _).
      destruct (price i) as [sg | sg | | sg m e]; try discriminate;
        destruct sg; reflexivity. }
    rewrite Hz. apply IH, Hrest.
Qed.

Lemma sigma_from_nan (items : list CartItem) :
  fold_left (fun a i => fadd a (fmul (price i) (Z_to_float (qty i)))) items S754_nan
  = S754_nan.
Proof. induction items as [| i rest IH]; simpl; [reflexivity | exact IH]. Qed.

Lemma sigma_nan_price (items : list CartItem) :
  forall acc,
    Exists (fun i => price i = S754_nan) items ->
    fold_left (fun a i => fadd a (fmul (price i) (Z_to_float (qty i)))) items acc
    = S754_nan.
Proof.
  induction items as [| i rest IH]; intros acc Hex; simpl.
  - inversion Hex.
  - inversion Hex as [? ? Hi | ? ? Hrest]; subst.
    + rewrite Hi.
      assert (Hn : fadd acc (fmul S754_nan (Z_to_float (qty i))) = S754_nan)
        by (destruct acc; reflexivity).
      rewrite Hn. apply sigma_from_nan.
    + apply IH, Hrest.
Qed.

(** ** Rounding on the binary64 grid

    What [SpecFloat] computes when it rounds, stated on whole numbers: a
    finite float is read in units of 2^-1074 ([scaled]), and the sum or
    difference of two floats is a neighbour ([near]) of the exact one on
    the grid of its binade. *)

Lemma digits2_unique (p : positive) (d : Z) :
  2 ^ (d - 1) <= Z.pos p < 2 ^ d -> Z.pos (digits2_pos p) = d.
Proof.
  intros [Hlo Hhi]. pose proof (digits2_bounds p) as [Hlo' Hhi'].
  assert (0 < d).
  { destruct (Z.le_gt_cases d 0) as [Hd | Hd]; [| exact Hd].
    assert (2 ^ d <= 2 ^ 0) by (apply Z.pow_le_mono_r; lia). simpl in *. lia. }
  destruct (Z.lt_trichotomy (Z.pos (digits2_pos p)) d) as [Hlt | [Heq | Hgt]];
    [| exact Heq |].
  - assert (2 ^ Z.pos (digits2_pos p) <= 2 ^ (d - 1)) by (apply Z.pow_le_mono_r; lia).
    lia.
  - assert (2 ^ d <= 2 ^ (Z.pos (digits2_pos p) - 1)) by (apply Z.pow_le_mono_r; lia).
    lia.
Qed.

Lemma digits2_le (p q : positive) :
  Z.pos p <= Z.pos q -> Z.pos (digits2_pos p) <= Z.pos (digits2_pos q).
Proof.
  intros Hpq. pose proof (digits2_bounds p) as [Hlo _].
  pose proof (digits2_bounds q) as [_ Hhi].
  destruct (Z.le_gt_cases (Z.pos (digits2_pos p)) (Z.pos (digits2_pos q))) as [H | H];
    [exact H |].
  assert (2 ^ Z.pos (digits2_pos q) <= 2 ^ (Z.pos (digits2_pos p) - 1))
    by (apply Z.pow_le_mono_r; lia).
  lia.
Qed.

(** Shifting a mantissa right. *)
Lemma shr_1_spec (r : shr_record) :
  0 <= shr_m r ->
  shr_m (shr_1 r) = shr_m r / 2 /\
  inexact (shr_1 r) = inexact r || Z.odd (shr_m r).
Proof.
  destruct r as [m r s]. cbn [shr_m]. intros Hm.
  rewrite <- Z.div2_div.
  destruct m as [| [p | p |] |]; try lia; unfold inexact; cbn;
    (split; [reflexivity |]); destruct r, s; reflexivity.
Qed.

Lemma shr_iter_spec (n : nat) (r : shr_record) :
  0 <= shr_m r ->
  shr_m (Nat.iter n shr_1 r) = shr_m r / 2 ^ Z.of_nat n /\
  (inexact (Nat.iter n shr_1 r) = false <->
   inexact r = false /\ shr_m r mod 2 ^ Z.of_nat n = 0).
Proof.
  intros Hm. induction n as [| n [IHm IHi]].
  - cbn [Nat.iter]. change (2 ^ Z.of_nat 0) with 1.
    rewrite Z.div_1_r, Z.mod_1_r. tauto.
  - change (Nat.iter (S n) shr_1 r) with (shr_1 (Nat.iter n shr_1 r)).
    assert (Hpos : 0 <= shr_m (Nat.iter n shr_1 r)).
    { rewrite IHm. apply Z.div_pos; [exact Hm | apply Z.pow_pos_nonneg; lia]. }
    destruct (shr_1_spec _ Hpos) as [H1 H2].
    assert (Hp : 0 < 2 ^ Z.of_nat n) by (apply Z.pow_pos_nonneg; lia).
    rewrite Nat2Z.inj_succ, Z.pow_succ_r by lia.
    split.
    + rewrite H1, IHm, Z.div_div by lia. f_equal. lia.
    + rewrite H2, orb_false_iff, IHi, IHm.
      rewrite (Z.mul_comm 2), Z.rem_mul_r by lia.
      rewrite Zmod_odd.
      pose proof (Z.mod_pos_bound (shr_m r) (2 ^ Z.of_nat n) Hp).
      destruct (Z.odd (shr_m r / 2 ^ Z.of_nat n)); split.
      * intros [_ Hf]; discriminate.
      * intros [_ Hz]. lia.
      * intros [[Hi Hz] _]. split; [exact Hi | lia].
      * intros [Hi Hz]. split; [split; [exact Hi | lia] | reflexivity].
Qed.

Lemma loc_exact_iff (r : shr_record) :
  loc_of_shr_record r = loc_Exact <-> inexact r = false.
Proof. destruct r as [m [] []]; unfold inexact; cbn; split; congruence. Qed.

Lemma round_nearest_even_spec (m : Z) (l : location) :
  m <= round_nearest_even m l <= m + 1 /\
  (l = loc_Exact -> round_nearest_even m l = m).
Proof.
  destruct l as [| []]; cbn; try destruct (Z.even m); split; try lia; congruence.
Qed.

Lemma shr_spec (m e n : Z) :
  0 <= m -> 0 <= n ->
  let '(r, e') := shr {| shr_m := m; shr_r := false; shr_s := false |} e n in
  e' = e + n /\ shr_m r = m / 2 ^ n /\
  (loc_of_shr_record r = loc_Exact <-> m mod 2 ^ n = 0).
Proof.
  intros Hm Hn. destruct n as [| p | p]; [| | lia]; cbn [shr].
  - rewrite Z.add_0_r. change (2 ^ 0) with 1. rewrite Z.div_1_r, Z.mod_1_r.
    cbn. tauto.
  - rewrite iter_pos_nat.
    destruct (shr_iter_spec (Pos.to_nat p)
                {| shr_m := m; shr_r := false; shr_s := false |} Hm) as [H1 H2].
    rewrite positive_nat_Z in H1, H2. cbn [shr_m] in *.
    split; [reflexivity |]. split; [exact H1 |].
    rewrite loc_exact_iff, H2. unfold inexact. cbn. tauto.
Qed.

Lemma fexp_eq (x : Z) : fexp prec emax x = Z.max (x - 53) (-1074).
Proof. reflexivity. Qed.

Lemma bounded_iff (m : positive) (e : Z) :
  bounded prec emax m e = true <->
  e = Z.max (Z.pos (digits2_pos m) + e - 53) (-1074) /\ e <= 971.
Proof.
  unfold bounded, canonical_mantissa. rewrite fexp_eq.
  change (emax - prec) with 971.
  rewrite andb_true_iff, Z.eqb_eq, Z.leb_le. intuition lia.
Qed.

Lemma shr_fexp_stay (m e : Z) :
  fexp prec emax (Zdigits2 m + e) <= e ->
  shr_fexp prec emax m e loc_Exact
  = ({| shr_m := m; shr_r := false; shr_s := false |}, e).
Proof.
  intros H. unfold shr_fexp. cbn [shr_record_of_loc].
  destruct (fexp prec emax (Zdigits2 m + e) - e) as [| p | p] eqn:Hn; try reflexivity.
  lia.
Qed.

Lemma shr_fexp_shift (m e : Z) :
  0 <= m ->
  e <= fexp prec emax (Zdigits2 m + e) ->
  let n := fexp prec emax (Zdigits2 m + e) - e in
  let '(r, e') := shr_fexp prec emax m e loc_Exact in
  e' = e + n /\ shr_m r = m / 2 ^ n /\
  (loc_of_shr_record r = loc_Exact <-> m mod 2 ^ n = 0).
Proof.
  intros Hm He n. unfold shr_fexp. cbn [shr_record_of_loc].
  apply shr_spec; [exact Hm | lia].
Qed.

Lemma round_aux_spec (s : bool) (M : positive) (E : Z) :
  let e1 := fexp prec emax (Z.pos (digits2_pos M) + E) in
  E <= e1 ->
  exists q,
    Z.pos M / 2 ^ (e1 - E) <= q <= Z.pos M / 2 ^ (e1 - E) + 1 /\
    (Z.pos M mod 2 ^ (e1 - E) = 0 -> q = Z.pos M / 2 ^ (e1 - E)) /\
    rounded s q e1 (binary_round_aux prec emax s (Z.pos M) E loc_Exact).
Proof.
  intros e1 He. unfold binary_round_aux.
  pose proof (shr_fexp_shift (Z.pos M) E ltac:(lia) He) as H1.
  cbn [Zdigits2] in H1. fold e1 in H1. cbv zeta in H1.
  destruct (shr_fexp prec emax (Z.pos M) E loc_Exact) as [r1 e'].
  destruct H1 as (-> & Hq & Hex).
  replace (E + (e1 - E)) with e1 by lia.
  set (n := e1 - E) in *.
  set (Q := Z.pos M / 2 ^ n) in *.
  destruct (round_nearest_even_spec (shr_m r1) (loc_of_shr_record r1)) as [Hr Hre].
  set (q := round_nearest_even (shr_m r1) (loc_of_shr_record r1)) in *.
  rewrite Hq in Hr.
  exists q. split; [exact Hr |]. split.
  { intros Hz. rewrite <- Hq. apply Hre, Hex, Hz. }
  pose proof (digits2_bounds M) as [Hlo Hhi].
  set (d := Z.pos (digits2_pos M)) in *.
  assert (Hn : 0 <= n) by (unfold n; lia).
  assert (Hpn : 0 < 2 ^ n) by (apply Z.pow_pos_nonneg; lia).
  assert (He1 : e1 = Z.max (d + E - 53) (-1074)) by (unfold e1; apply fexp_eq).
  assert (HQ0 : 0 <= Q) by (apply Z.div_pos; lia).
  (* the range of the quotient *)
  assert (HQ : (e1 = d + E - 53 /\ 2 ^ 52 <= Q < 2 ^ 53) \/
               (e1 = -1074 /\ Q < 2 ^ 52)).
  { destruct (Z.le_gt_cases (-1074) (d + E - 53)) as [Hc | Hc].
    - left. split; [lia |].
      assert (Hnd : n = d - 53) by (unfold n; lia).
      assert (Hd1 : 2 ^ (d - 1) = 2 ^ 52 * 2 ^ n)
        by (rewrite <- Z.pow_add_r by lia; f_equal; lia).
      assert (Hd2 : 2 ^ d = 2 ^ 53 * 2 ^ n)
        by (rewrite <- Z.pow_add_r by lia; f_equal; lia).
      split.
      + apply Z.div_le_lower_bound; lia.
      + apply Z.div_lt_upper_bound; lia.
    - right. split; [lia |].
      assert (Hdn : d <= n + 52) by (unfold n; lia).
      assert (2 ^ d <= 2 ^ (n + 52)) by (apply Z.pow_le_mono_r; lia).
      assert (Hd2 : 2 ^ (n + 52) = 2 ^ 52 * 2 ^ n)
        by (rewrite <- Z.pow_add_r by lia; f_equal; lia).
      apply Z.div_lt_upper_bound; lia. }
  destruct (Z.eq_dec q 0) as [Hq0 | Hq0].
  { (* rounds to zero *)
    rewrite Hq0. rewrite shr_fexp_stay by (cbn [Zdigits2]; rewrite fexp_eq; lia).
    cbn [shr_m]. left. split; reflexivity. }
  assert (Hqpos : 0 < q) by lia.
  destruct q as [| qp | qp] eqn:Hqp; try lia.
  pose proof (digits2_bounds qp) as [Hqlo Hqhi].
  destruct (Z.eq_dec (Z.pos qp) (2 ^ 53)) as [Hcarry | Hcarry].
  - (* the mantissa overflows into the next binade *)
    assert (Hnorm : e1 = d + E - 53) by lia.
    assert (Hdq : Z.pos (digits2_pos qp) = 54)
      by (apply digits2_unique; rewrite Hcarry; simpl; lia).
    pose proof (shr_fexp_shift (Z.pos qp) e1 ltac:(lia)) as H2.
    cbn [Zdigits2] in H2. rewrite Hdq, fexp_eq in H2.
    replace (Z.max (54 + e1 - 53) (-1074) - e1) with 1 in H2 by lia.
    specialize (H2 ltac:(lia)). cbv zeta in H2.
    destruct (shr_fexp prec emax (Z.pos qp) e1 loc_Exact) as [r2 e2].
    destruct H2 as (-> & Hm2 & _).
    rewrite Hm2, Hcarry. change (2 ^ 53 / 2 ^ 1) with (Z.pos (2 ^ 52)%positive).
    change (emax - prec) with 971.
    destruct (Z.leb_spec (e1 + 1) 971) as [Hle | Hgt].
    + right. right. exists (2 ^ 52)%positive, (e1 + 1).
      assert (Hd52 : Z.pos (digits2_pos (2 ^ 52)) = 53) by reflexivity.
      split; [reflexivity |]. split; [apply bounded_iff; rewrite Hd52; lia |].
      split; [lia |]. replace (e1 + 1 - e1) with 1 by lia. reflexivity.
    + right. left. split; [lia | reflexivity].
  - (* the mantissa stays within 53 bits *)
    assert (Hq53 : Z.pos qp < 2 ^ 53) by (destruct HQ; lia).
    pose proof (digits2_small qp Hq53) as Hdq.
    assert (Hcanon : e1 = Z.max (Z.pos (digits2_pos qp) + e1 - 53) (-1074)).
    { destruct HQ as [[Hn1 HQr] | [Hs1 HQr]]; [| lia].
      assert (Z.pos (digits2_pos qp) = 53) by (apply digits2_unique; simpl; lia).
      lia. }
    rewrite shr_fexp_stay by (cbn [Zdigits2]; rewrite fexp_eq; lia).
    cbn [shr_m]. change (emax - prec) with 971.
    destruct (Z.leb_spec e1 971) as [Hle | Hgt].
    + right. right. exists qp, e1.
      split; [reflexivity |]. split; [apply bounded_iff; lia |].
      split; [lia |]. rewrite Z.sub_diag. lia.
    + right. left. split; [lia | reflexivity].
Qed.

Lemma ulp_exp_nonneg (n : Z) : 0 <= ulp_exp n.
Proof. unfold ulp_exp. lia. Qed.

Lemma ulp_exp_mono (a b : Z) : a <= b -> ulp_exp a <= ulp_exp b.
Proof. intros H. unfold ulp_exp. pose proof (Z.log2_le_mono a b H). lia. Qed.

Lemma pow2_divide (a b : Z) : 0 <= a <= b -> (2 ^ a | 2 ^ b).
Proof.
  intros H. exists (2 ^ (b - a)). rewrite <- Z.pow_add_r by lia. f_equal. lia.
Qed.

Lemma ulp_pos (n : Z) : 0 < 2 ^ ulp_exp n.
Proof. apply Z.pow_pos_nonneg; [lia | apply ulp_exp_nonneg]. Qed.

Lemma rep_0 : rep 0.
Proof. exists 0. reflexivity. Qed.

Lemma near_pos_le (S R G : Z) :
  near_pos S R -> rep G -> 0 <= S <= G -> R <= G.
Proof.
  intros (Hu & Hr & Hex) HG HS.
  pose proof (ulp_pos S) as Hp. set (u := 2 ^ ulp_exp S) in *.
  assert (HuG : (u | G)).
  { apply Z.divide_trans with (2 ^ ulp_exp G); [| exact HG].
    apply pow2_divide. split; [apply ulp_exp_nonneg | apply ulp_exp_mono; lia]. }
  destruct HuG as [g Hg].
  pose proof (Z.div_mod S u ltac:(lia)) as Hdm.
  pose proof (Z.mod_pos_bound S u Hp) as Hmb.
  destruct (Z.eq_dec (S mod u) 0) as [Hz | Hnz].
  - rewrite (Hex Hz). lia.
  - assert (S / u < g) by nia. nia.
Qed.

Lemma near_pos_ge (S R G : Z) :
  near_pos S R -> rep G -> 0 <= G <= S -> G <= R.
Proof.
  intros (Hu & Hr & Hex) HG HS.
  pose proof (ulp_pos S) as Hp. set (u := 2 ^ ulp_exp S) in *.
  pose proof (Z.div_mod S u ltac:(lia)) as Hdm.
  pose proof (Z.mod_pos_bound S u Hp) as Hmb.
  destruct (Z.eq_dec (ulp_exp G) (ulp_exp S)) as [Heq | Hne].
  - unfold rep in HG. rewrite Heq in HG. fold u in HG. destruct HG as [g Hg].
    assert (g <= S / u) by nia. nia.
  - pose proof (ulp_exp_mono G S ltac:(lia)) as Hmono.
    pose proof (ulp_exp_nonneg G) as HG0.
    assert (Hk : ulp_exp S = Z.log2 S - 52) by (unfold ulp_exp in *; lia).
    assert (Hlog : Z.log2 G < Z.log2 S) by (unfold ulp_exp in *; lia).
    assert (HSpos : 0 < S).
    { destruct (Z.eq_dec S 0) as [-> | ?]; [| lia]. cbn in Hlog.
      pose proof (Z.log2_nonneg G). lia. }
    pose proof (Z.log2_spec S HSpos) as [HSlo _].
    assert (Hpow : 2 ^ Z.log2 S = 2 ^ 52 * u).
    { unfold u. rewrite Hk, <- Z.pow_add_r by lia. f_equal. lia. }
    assert (HQ : 2 ^ 52 <= S / u) by (apply Z.div_le_lower_bound; lia).
    assert (HGhi : G < 2 ^ Z.log2 S).
    { destruct (Z.eq_dec G 0) as [-> | ?]; [lia |].
      pose proof (Z.log2_spec G ltac:(lia)) as [_ HGhi].
      assert (2 ^ Z.succ (Z.log2 G) <= 2 ^ Z.log2 S)
        by (apply Z.pow_le_mono_r; lia).
      lia. }
    nia.
Qed.

Lemma near_pos_exact (S R : Z) : near_pos S R -> rep S -> R = S.
Proof.
  intros (_ & _ & Hex) HS. apply Hex.
  apply Z.mod_divide; [pose proof (ulp_pos S); lia | exact HS].
Qed.

Lemma near_pos_refl (S : Z) : 0 <= S -> rep S -> near_pos S S.
Proof.
  intros H0 HS. pose proof (ulp_pos S) as Hp. red. split; [exact HS |].
  split; [| reflexivity].
  pose proof (Z.div_mod S (2 ^ ulp_exp S) ltac:(lia)).
  pose proof (Z.mod_pos_bound S (2 ^ ulp_exp S) Hp). lia.
Qed.

Lemma rep_double (a : Z) : 0 <= a -> rep a -> rep (2 * a).
Proof.
  intros Ha [k Hk]. destruct (Z.eq_dec a 0) as [-> | Hn]; [apply rep_0 |].
  assert (Hlog : Z.log2 (2 * a) = Z.succ (Z.log2 a)) by (apply Z.log2_double; lia).
  unfold rep.
  apply Z.divide_trans with (2 ^ (ulp_exp a + 1)).
  - apply pow2_divide. split; [apply ulp_exp_nonneg |]. unfold ulp_exp. lia.
  - exists k. rewrite Z.pow_add_r by (pose proof (ulp_exp_nonneg a); lia). lia.
Qed.

Lemma rep_diff (F T : Z) :
  rep F -> rep T -> 0 <= F <= T -> T <= 2 * F -> rep (T - F).
Proof.
  intros HF HT H1 H2.
  assert (HuT : (2 ^ ulp_exp F | T)).
  { apply Z.divide_trans with (2 ^ ulp_exp T); [| exact HT].
    apply pow2_divide. split; [apply ulp_exp_nonneg | apply ulp_exp_mono; lia]. }
  unfold rep. apply Z.divide_trans with (2 ^ ulp_exp F).
  - apply pow2_divide. split; [apply ulp_exp_nonneg | apply ulp_exp_mono; lia].
  - apply Z.divide_sub_r; assumption.
Qed.

(** The same with a sign. *)
Lemma near_bound_below (t r G : Z) :
  near t r -> rep G -> 0 <= G -> - G <= t -> - G <= r.
Proof.
  intros (Hpos & Hneg & Hn) HG HG0 Ht.
  destruct (Z.le_gt_cases 0 t) as [H | H]; [specialize (Hpos H); lia |].
  specialize (Hneg ltac:(lia)).
  pose proof (near_pos_le _ _ G Hn HG ltac:(lia)). lia.
Qed.

Lemma near_exact (t r : Z) : near t r -> rep (Z.abs t) -> r = t.
Proof.
  intros (Hpos & Hneg & Hn) Ht. pose proof (near_pos_exact _ _ Hn Ht). lia.
Qed.

Lemma near_refl (t : Z) : rep (Z.abs t) -> near t t.
Proof.
  intros H. split; [lia |]. split; [lia |]. apply near_pos_refl; [lia | exact H].
Qed.

Lemma log2_digits (p : positive) : Z.log2 (Z.pos p) = Z.pos (digits2_pos p) - 1.
Proof.
  pose proof (digits2_bounds p) as [Hlo Hhi].
  apply Z.log2_unique; [lia |].
  replace (Z.succ (Z.pos (digits2_pos p) - 1)) with (Z.pos (digits2_pos p)) by lia.
  lia.
Qed.

Lemma shl_align_le (m : positive) (e ez : Z) :
  ez <= e ->
  exists mz, shl_align m e ez = (mz, ez) /\ Z.pos mz = Z.pos m * 2 ^ (e - ez).
Proof.
  intros H. pose proof (shl_align_Z m e ez H) as Hv.
  exists (fst (shl_align m e ez)). split; [| exact Hv].
  unfold shl_align in *. destruct (ez - e) as [| p | p] eqn:Hd; cbn [fst]; try lia.
  - f_equal. lia.
  - reflexivity.
Qed.

Lemma shl_align_gt (m : positive) (e ez : Z) :
  e <= ez -> shl_align m e ez = (m, e).
Proof.
  intros H. unfold shl_align. destruct (ez - e) as [| p | p] eqn:Hd; try reflexivity.
  lia.
Qed.

Lemma ulp_exp_scaled (M : positive) (E : Z) :
  -1074 <= E ->
  ulp_exp (Z.pos M * 2 ^ (E + 1074))
  = fexp prec emax (Z.pos (digits2_pos M) + E) + 1074.
Proof.
  intros HE. unfold ulp_exp. rewrite Z.log2_mul_pow2, log2_digits, fexp_eq by lia. lia.
Qed.

Lemma binary_round_spec (s : bool) (M : positive) (E : Z) :
  -1074 <= E ->
  exists R,
    0 < R /\
    near_pos (Z.pos M * 2 ^ (E + 1074)) R /\
    rounded_to s R (binary_round prec emax s M E).
Proof.
  intros HE. unfold binary_round.
  pose proof (ulp_exp_scaled M E HE) as Hulp.
  pose proof (digits2_bounds M) as [Hlo Hhi].
  set (d := Z.pos (digits2_pos M)) in *.
  set (f1 := fexp prec emax (d + E)) in *.
  assert (Hf1 : f1 = Z.max (d + E - 53) (-1074)) by apply fexp_eq.
  set (S := Z.pos M * 2 ^ (E + 1074)) in *.
  assert (Hal : exists mz ez,
             shl_align M E f1 = (mz, ez) /\
             Z.pos mz * 2 ^ (ez + 1074) = S /\
             Z.pos (digits2_pos mz) + ez = d + E /\
             ez <= f1 /\ -1074 <= ez /\
             (ez < f1 -> mz = M /\ ez = E)).
  { destruct (Z.le_gt_cases f1 E) as [Hc | Hc].
    - destruct (shl_align_le M E f1 Hc) as (mz & Heq & Hmz).
      exists mz, f1. split; [exact Heq |].
      assert (Hp : 2 ^ (E + 1074) = 2 ^ (E - f1) * 2 ^ (f1 + 1074))
        by (rewrite <- Z.pow_add_r by lia; f_equal; lia).
      split; [unfold S; rewrite Hmz, Hp; lia |].
      split; [| lia].
      assert (Z.pos (digits2_pos mz) = d + (E - f1)); [| lia].
      apply digits2_unique. rewrite Hmz.
      assert (0 < 2 ^ (E - f1)) by (apply Z.pow_pos_nonneg; lia).
      replace (d + (E - f1) - 1) with (d - 1 + (E - f1)) by lia.
      rewrite !Z.pow_add_r by lia. nia.
    - exists M, E. rewrite shl_align_gt by lia.
      split; [reflexivity |]. split; [reflexivity |]. fold d. lia. }
  destruct Hal as (mz & ez & -> & HS & Hdz & Hez & Hez0 & Hsame).
  destruct (round_aux_spec s mz ez) as (q & Hq & Hqex & Hround).
  { rewrite Hdz. exact Hez. }
  rewrite Hdz in Hq, Hqex, Hround. fold f1 in Hq, Hqex, Hround.
  set (n := f1 - ez) in *.
  assert (Hn : 0 <= n) by (unfold n; lia).
  assert (Hpn : 0 < 2 ^ n) by (apply Z.pow_pos_nonneg; lia).
  set (u := 2 ^ (f1 + 1074)).
  assert (Hu : u = 2 ^ n * 2 ^ (ez + 1074))
    by (unfold u, n; rewrite <- Z.pow_add_r by lia; f_equal; lia).
  assert (Hpu : 0 < 2 ^ (ez + 1074)) by (apply Z.pow_pos_nonneg; lia).
  assert (HSu : S / u = Z.pos mz / 2 ^ n)
    by (rewrite <- HS, Hu; apply Z.div_mul_cancel_r; lia).
  assert (HSm : S mod u = Z.pos mz mod 2 ^ n * 2 ^ (ez + 1074))
    by (rewrite <- HS, Hu; apply Z.mul_mod_distr_r; lia).
  assert (Hqpos : 0 < q).
  { destruct (Z.eq_dec n 0) as [Hn0 | Hn0].
    - rewrite Hn0 in Hq. change (2 ^ 0) with 1 in Hq. rewrite Z.div_1_r in Hq. lia.
    - destruct (Hsame ltac:(unfold n in *; lia)) as [-> ->].
      assert (Hnd : n = d - 53) by (unfold n; lia).
      assert (Hd1 : 2 ^ (d - 1) = 2 ^ 52 * 2 ^ n)
        by (rewrite <- Z.pow_add_r by lia; f_equal; lia).
      assert (2 ^ 52 <= Z.pos M / 2 ^ n) by (apply Z.div_le_lower_bound; lia).
      lia. }
  exists (q * u). split; [unfold u; nia |]. split.
  - red. rewrite Hulp. fold u. split; [exists q; reflexivity |].
    split; [rewrite HSu; nia |].
    intros Hz. rewrite HSm in Hz.
    assert (Hz' : Z.pos mz mod 2 ^ n = 0) by nia.
    rewrite (Hqex Hz'), <- HSu.
    pose proof (Z.div_mod S u ltac:(unfold u; lia)) as Hdm.
    rewrite HSm, Hz' in Hdm. lia.
  - destruct Hround as [[Hq0 _] | [[_ ->] | (m & e & -> & Hb & He & Hv)]];
      [lia | left; reflexivity |].
    right. exists m, e. split; [reflexivity |]. split; [exact Hb |].
    rewrite <- Hv. unfold u.
    replace (e + 1074) with (e - f1 + (f1 + 1074)) by lia.
    rewrite Z.pow_add_r by lia. lia.
Qed.

Lemma bounded_rep (m : positive) (e : Z) :
  bounded prec emax m e = true ->
  -1074 <= e /\ rep (Z.pos m * 2 ^ (e + 1074)).
Proof.
  intros Hb. apply bounded_iff in Hb. destruct Hb as [Hc _].
  assert (He : -1074 <= e) by lia. split; [exact He |].
  unfold rep. rewrite ulp_exp_scaled, fexp_eq by exact He.
  replace (Z.max (Z.pos (digits2_pos m) + e - 53) (-1074)) with e by lia.
  exists (Z.pos m). reflexivity.
Qed.

Lemma valid_rep (f : float) : valid f = true -> rep (Z.abs (scaled f)).
Proof.
  destruct f as [s | s | | s m e]; intros Hv; try apply rep_0.
  destruct (bounded_rep m e Hv) as [He Hr]. cbn [scaled].
  assert (0 < 2 ^ (e + 1074)) by (apply Z.pow_pos_nonneg; lia).
  replace (Z.abs (cond_Zopp s (Z.pos m * 2 ^ (e + 1074))))
    with (Z.pos m * 2 ^ (e + 1074)) by (destruct s; cbn [cond_Zopp]; lia).
  exact Hr.
Qed.

Lemma sum_result_self (f : float) :
  is_finite f = true -> valid f = true -> sum_result (scaled f) f.
Proof.
  intros Hf Hv. right. split; [exact Hf |]. split; [exact Hv |].
  apply near_refl, valid_rep, Hv.
Qed.

Lemma normalize_spec (z E : Z) :
  -1074 <= E ->
  sum_result (z * 2 ^ (E + 1074)) (binary_normalize prec emax z E false).
Proof.
  intros HE.
  assert (Hp : 0 < 2 ^ (E + 1074)) by (apply Z.pow_pos_nonneg; lia).
  destruct z as [| M | M]; cbn [binary_normalize].
  - right. split; [reflexivity |]. split; [reflexivity |]. apply near_refl, rep_0.
  - destruct (binary_round_spec false M E HE) as (R & HR & Hnear & [-> | Hfin]).
    + left. split; [lia |]. destruct (Z.ltb_spec (Z.pos M * 2 ^ (E + 1074)) 0); [lia |].
      reflexivity.
    + destruct Hfin as (m & e & -> & Hb & Hv). right.
      split; [reflexivity |]. split; [exact Hb |].
      cbn [scaled cond_Zopp]. rewrite Hv.
      split; [lia |]. split; [lia |].
      rewrite !Z.abs_eq by lia. exact Hnear.
  - destruct (binary_round_spec true M E HE) as (R & HR & Hnear & [-> | Hfin]).
    + left. split; [lia |]. destruct (Z.ltb_spec (Z.neg M * 2 ^ (E + 1074)) 0); [| lia].
      reflexivity.
    + destruct Hfin as (m & e & -> & Hb & Hv). right.
      split; [reflexivity |]. split; [exact Hb |].
      cbn [scaled cond_Zopp]. rewrite Hv.
      change (Z.neg M) with (- Z.pos M). rewrite Z.mul_opp_l.
      set (S := Z.pos M * 2 ^ (E + 1074)) in *.
      assert (0 < S) by (unfold S; apply Z.mul_pos_pos; lia).
      split; [lia |]. split; [lia |].
      rewrite !Z.abs_opp, !Z.abs_eq by lia. exact Hnear.
Qed.

Lemma aligned_scaled (s : bool) (m : positive) (e ez : Z) :
  -1074 <= ez -> ez <= e ->
  cond_Zopp s (Z.pos (fst (shl_align m e ez))) * 2 ^ (ez + 1074)
  = cond_Zopp s (Z.pos m * 2 ^ (e + 1074)).
Proof.
  intros H0 H1. rewrite shl_align_Z by exact H1.
  replace (e + 1074) with (e - ez + (ez + 1074)) by lia.
  rewrite (Z.pow_add_r 2 (e - ez) (ez + 1074)) by lia.
  destruct s; cbn [cond_Zopp]; ring.
Qed.

Lemma fadd_spec (x y : float) :
  is_finite x = true -> is_finite y = true ->
  valid x = true -> valid y = true ->
  sum_result (scaled x + scaled y) (fadd x y).
Proof.
  destruct x as [sx | sx | | sx mx ex], y as [sy | sy | | sy my ey];
    try discriminate; intros _ _ Hx Hy.
  - right. split; [destruct sx, sy; reflexivity |].
    split; [destruct sx, sy; reflexivity |].
    replace (scaled (fadd (S754_zero sx) (S754_zero sy))) with 0
      by (destruct sx, sy; reflexivity).
    apply near_refl, rep_0.
  - change (fadd (S754_zero sx) (S754_finite sy my ey)) with (S754_finite sy my ey).
    change (scaled (S754_zero sx)) with 0. rewrite Z.add_0_l.
    apply sum_result_self; [reflexivity | exact Hy].
  - change (fadd (S754_finite sx mx ex) (S754_zero sy)) with (S754_finite sx mx ex).
    change (scaled (S754_zero sy)) with 0. rewrite Z.add_0_r.
    apply sum_result_self; [reflexivity | exact Hx].
  - destruct (bounded_rep mx ex Hx) as [Hex _].
    destruct (bounded_rep my ey Hy) as [Hey _].
    unfold fadd, SFadd. cbv zeta. cbn [scaled].
    rewrite <- (aligned_scaled sx mx ex (Z.min ex ey)) by lia.
    rewrite <- (aligned_scaled sy my ey (Z.min ex ey)) by lia.
    rewrite <- Z.mul_add_distr_r.
    apply normalize_spec. lia.
Qed.

Lemma fsub_spec (x y : float) :
  is_finite x = true -> is_finite y = true ->
  valid x = true -> valid y = true ->
  sum_result (scaled x - scaled y) (fsub x y).
Proof.
  destruct x as [sx | sx | | sx mx ex], y as [sy | sy | | sy my ey];
    try discriminate; intros _ _ Hx Hy.
  - right. split; [destruct sx, sy; reflexivity |].
    split; [destruct sx, sy; reflexivity |].
    replace (scaled (fsub (S754_zero sx) (S754_zero sy))) with 0
      by (destruct sx, sy; reflexivity).
    apply near_refl, rep_0.
  - change (fsub (S754_zero sx) (S754_finite sy my ey))
      with (S754_finite (negb sy) my ey).
    replace (scaled (S754_zero sx) - scaled (S754_finite sy my ey))
      with (scaled (S754_finite (negb sy) my ey))
      by (destruct sy; cbn [scaled cond_Zopp negb]; lia).
    apply sum_result_self; [reflexivity | exact Hy].
  - change (fsub (S754_finite sx mx ex) (S754_zero sy)) with (S754_finite sx mx ex).
    change (scaled (S754_zero sy)) with 0. rewrite Z.sub_0_r.
    apply sum_result_self; [reflexivity | exact Hx].
  - destruct (bounded_rep mx ex Hx) as [Hex _].
    destruct (bounded_rep my ey Hy) as [Hey _].
    unfold fsub, SFsub. cbv zeta. cbn [scaled].
    rewrite <- (aligned_scaled sx mx ex (Z.min ex ey)) by lia.
    rewrite <- (aligned_scaled sy my ey (Z.min ex ey)) by lia.
    rewrite <- Z.mul_sub_distr_r.
    apply normalize_spec. lia.
Qed.

(** Comparing magnitudes. *)
Lemma canonical_order (mx my : positive) (ex ey : Z) :
  bounded prec emax mx ex = true -> bounded prec emax my ey = true ->
  ex < ey ->
  Z.pos mx * 2 ^ (ex + 1074) < Z.pos my * 2 ^ (ey + 1074).
Proof.
  intros Hx Hy Hlt. apply bounded_iff in Hx, Hy.
  destruct Hx as [Hx _], Hy as [Hy _].
  pose proof (digits2_bounds mx) as [_ Hxhi].
  pose proof (digits2_bounds my) as [Hylo _].
  assert (Hdx : Z.pos (digits2_pos mx) <= 53) by lia.
  assert (Hdy : Z.pos (digits2_pos my) = 53) by lia.
  rewrite Hdy in Hylo. change (2 ^ (53 - 1)) with (2 ^ 52) in Hylo.
  assert (2 ^ Z.pos (digits2_pos mx) <= 2 ^ 53) by (apply Z.pow_le_mono_r; lia).
  assert (Hp : 0 < 2 ^ (ex + 1074)) by (apply Z.pow_pos_nonneg; lia).
  assert (Hq : 2 * 2 ^ (ex + 1074) <= 2 ^ (ey + 1074)).
  { rewrite <- Z.pow_succ_r by lia. apply Z.pow_le_mono_r; lia. }
  change (2 ^ 53) with (2 ^ 52 * 2) in *. nia.
Qed.

Lemma scaled_abs (f : float) : scaled (fabs f) = Z.abs (scaled f).
Proof.
  destruct f as [s | s | | s m e]; try reflexivity.
  cbn [fabs SFabs scaled cond_Zopp].
  destruct (Z.le_gt_cases 0 (e + 1074)) as [H | H].
  - assert (0 < 2 ^ (e + 1074)) by (apply Z.pow_pos_nonneg; lia).
    destruct s; cbn [cond_Zopp]; nia.
  - rewrite Z.pow_neg_r by lia. destruct s; cbn [cond_Zopp]; lia.
Qed.

Lemma fleb_abs_spec (x y : float) :
  is_finite x = true -> is_finite y = true ->
  valid x = true -> valid y = true ->
  if fleb (fabs x) (fabs y)
  then Z.abs (scaled x) <= Z.abs (scaled y)
  else Z.abs (scaled y) < Z.abs (scaled x).
Proof.
  rewrite <- !scaled_abs.
  destruct x as [sx | sx | | sx mx ex], y as [sy | sy | | sy my ey];
    try discriminate; intros _ _ Hx Hy; cbn [fabs SFabs]; try (cbn; lia).
  - destruct (bounded_rep mx ex Hx) as [Hex _].
    assert (0 < 2 ^ (ex + 1074)) by (apply Z.pow_pos_nonneg; lia).
    cbn. nia.
  - unfold fleb, SFleb, SFcompare. cbn [scaled cond_Zopp].
    destruct (Z.compare_spec ex ey) as [Heq | Hlt | Hgt].
    + subst ey. destruct (bounded_rep mx ex Hx) as [Hex _].
      assert (0 < 2 ^ (ex + 1074)) by (apply Z.pow_pos_nonneg; lia).
      change (Pos.compare_cont Eq mx my) with (Pos.compare mx my).
      destruct (Pos.compare_spec mx my) as [-> | H1 | H1].
      * lia.
      * apply Pos2Z.pos_lt_pos in H1. nia.
      * apply Pos2Z.pos_lt_pos in H1. nia.
    + pose proof (canonical_order mx my ex ey Hx Hy Hlt). lia.
    + pose proof (canonical_order my mx ey ex Hy Hx ltac:(lia)). lia.
Qed.

(** Sums and differences of valid floats. *)
Lemma fadd_valid (x y : float) :
  valid x = true -> valid y = true -> valid (fadd x y) = true.
Proof.
  intros Hx Hy.
  destruct (is_finite x) eqn:Hfx; [destruct (is_finite y) eqn:Hfy |].
  - destruct (fadd_spec x y Hfx Hfy Hx Hy) as [[_ ->] | (_ & Hv & _)];
      [reflexivity | exact Hv].
  - destruct x as [sx | sx | | sx mx ex], y as [sy | sy | | sy my ey];
      try discriminate; reflexivity.
  - destruct x as [sx | sx | | sx mx ex], y as [sy | sy | | sy my ey];
      try discriminate; try reflexivity; destruct sx, sy; reflexivity.
Qed.

Lemma fsub_valid (x y : float) :
  valid x = true -> valid y = true -> valid (fsub x y) = true.
Proof.
  intros Hx Hy.
  destruct (is_finite x) eqn:Hfx; [destruct (is_finite y) eqn:Hfy |].
  - destruct (fsub_spec x y Hfx Hfy Hx Hy) as [[_ ->] | (_ & Hv & _)];
      [reflexivity | exact Hv].
  - destruct x as [sx | sx | | sx mx ex], y as [sy | sy | | sy my ey];
      try discriminate; reflexivity.
  - destruct x as [sx | sx | | sx mx ex], y as [sy | sy | | sy my ey];
      try discriminate; try reflexivity; destruct sx, sy; reflexivity.
Qed.

Lemma fadd_finite_inv (x y : float) :
  is_finite (fadd x y) = true -> is_finite x = true /\ is_finite y = true.
Proof.
  destruct x as [sx | sx | | sx mx ex], y as [sy | sy | | sy my ey];
    try (split; reflexivity); try discriminate;
    destruct sx, sy; discriminate.
Qed.

Lemma fadd_not_finite_l (x y : float) :
  is_finite x = false -> is_finite (fadd x y) = false.
Proof.
  intros Hx. destruct (is_finite (fadd x y)) eqn:H; [| reflexivity].
  apply fadd_finite_inv in H. destruct H; congruence.
Qed.

Lemma fadd_not_finite_r (x y : float) :
  is_finite y = false -> is_finite (fadd x y) = false.
Proof.
  intros Hy. destruct (is_finite (fadd x y)) eqn:H; [| reflexivity].
  apply fadd_finite_inv in H. destruct H; congruence.
Qed.

Lemma nonneg_scaled (f : float) : nonneg_ok f -> 0 <= scaled f.
Proof.
  intros [Hs Hv]. destruct f as [s | s | | s m e]; cbn [scaled]; try lia.
  destruct s; [discriminate |]. destruct (bounded_rep m e Hv) as [He _].
  assert (0 < 2 ^ (e + 1074)) by (apply Z.pow_pos_nonneg; lia).
  cbn [cond_Zopp]. nia.
Qed.

Lemma sum_result_nonneg (t : Z) (r : float) :
  0 <= t -> sum_result t r -> nonneg_ok r.
Proof.
  intros Ht [[Hne ->] | (Hf & Hv & Hpos & _)].
  - destruct (Z.ltb_spec t 0); [lia |]. split; reflexivity.
  - split; [| exact Hv]. specialize (Hpos Ht).
    destruct r as [s | s | | s m e]; try reflexivity; try discriminate.
    destruct s; [| reflexivity]. destruct (bounded_rep m e Hv) as [He _].
    assert (0 < 2 ^ (e + 1074)) by (apply Z.pow_pos_nonneg; lia).
    cbn [scaled cond_Zopp] in Hpos. nia.
Qed.

Lemma fadd_nonneg (x y : float) :
  nonneg_ok x -> nonneg_ok y -> nonneg_ok (fadd x y).
Proof.
  intros Hx Hy.
  destruct (is_finite x) eqn:Hfx; [destruct (is_finite y) eqn:Hfy |].
  - apply (sum_result_nonneg (scaled x + scaled y)).
    + pose proof (nonneg_scaled x Hx). pose proof (nonneg_scaled y Hy). lia.
    + apply fadd_spec; [assumption | assumption | apply Hx | apply Hy].
  - destruct Hx as [Hsx _], Hy as [Hsy _].
    destruct x as [sx | sx | | sx mx ex], y as [sy | sy | | sy my ey];
      try discriminate; try (split; reflexivity);
      destruct sy; try discriminate; split; reflexivity.
  - destruct Hx as [Hsx _], Hy as [Hsy _].
    destruct x as [sx | sx | | sx mx ex], y as [sy | sy | | sy my ey];
      try discriminate; try (split; reflexivity);
      destruct sx; try discriminate; try (split; reflexivity);
      destruct sy; try discriminate; split; reflexivity.
Qed.

(** ** The compensated sum of amounts that are not negative *)

Lemma sum_result_finite (t : Z) (r : float) :
  sum_result t r -> is_finite r = true ->
  valid r = true /\ near t (scaled r).
Proof.
  intros [[_ ->] | (_ & Hv & Hn)] Hf; [discriminate | split; assumption].
Qed.

Lemma compensation_bound (a b c t : float) (F : Z) :
  is_finite a = true -> is_finite b = true -> is_finite c = true ->
  is_finite t = true ->
  valid a = true -> valid b = true -> valid c = true -> valid t = true ->
  0 <= scaled b <= scaled a ->
  near (scaled a + scaled b) (scaled t) ->
  F <= scaled a -> 0 <= F + scaled c ->
  let c' := fadd c (fadd (fsub a t) b) in
  is_finite c' = false \/ 0 <= scaled t + scaled c'.
Proof.
  intros Hfa Hfb Hfc Hft Ha Hb Hc Ht HB Hnear HF HC c'.
  set (A := scaled a) in *. set (B := scaled b) in *.
  set (C := scaled c) in *. set (T := scaled t) in *.
  destruct Hnear as (Hpos & _ & Hnp).
  specialize (Hpos ltac:(lia)).
  rewrite !Z.abs_eq in Hnp by lia.
  assert (HrA : rep A) by (pose proof (valid_rep a Ha) as H; fold A in H;
                           rewrite Z.abs_eq in H by lia; exact H).
  assert (HrT : rep T) by (pose proof (valid_rep t Ht) as H; fold T in H;
                           rewrite Z.abs_eq in H by lia; exact H).
  assert (HTA : A <= T) by (apply (near_pos_ge _ _ A Hnp HrA); lia).
  assert (HT2 : T <= 2 * A)
    by (apply (near_pos_le _ _ (2 * A) Hnp); [apply rep_double; [lia | exact HrA] | lia]).
  assert (Hrd : rep (T - A)) by (apply rep_diff; [exact HrA | exact HrT | lia | lia]).
  destruct (is_finite c') eqn:Hfc'; [right | left; reflexivity].
  unfold c' in Hfc'.
  destruct (fadd_finite_inv _ _ Hfc') as [_ Hfdelta].
  destruct (fadd_finite_inv _ _ Hfdelta) as [Hfd _].
  destruct (sum_result_finite _ _ (fsub_spec a t Hfa Hft Ha Ht) Hfd) as [Hvd Hnd].
  fold A T in Hnd.
  assert (HD : scaled (fsub a t) = A - T).
  { apply near_exact; [exact Hnd |].
    replace (Z.abs (A - T)) with (T - A) by lia. exact Hrd. }
  destruct (sum_result_finite _ _ (fadd_spec _ b Hfd Hfb Hvd Hb) Hfdelta)
    as [Hvdelta Hndelta].
  rewrite HD in Hndelta. fold B in Hndelta.
  assert (HDelta : - (T - A) <= scaled (fadd (fsub a t) b))
    by (apply (near_bound_below _ _ (T - A) Hndelta Hrd); lia).
  destruct (sum_result_finite _ _ (fadd_spec c _ Hfc Hfdelta Hc Hvdelta) Hfc')
    as [_ Hnc'].
  fold C in Hnc'.
  assert (- T <= scaled c')
    by (apply (near_bound_below _ _ T Hnc' HrT); lia).
  lia.
Qed.

Lemma compensated_step_inv (f c x : float) :
  comp_inv f c -> nonneg_ok x ->
  comp_inv (fst (compensated_step (f, c) x)) (snd (compensated_step (f, c) x)).
Proof.
  intros (Hf & Hvc & Hinv) Hx. unfold compensated_step. cbn [fst snd].
  set (t := fadd f x).
  assert (Ht : nonneg_ok t) by (apply fadd_nonneg; assumption).
  split; [exact Ht |]. split.
  { destruct (fleb (fabs x) (fabs f)); apply fadd_valid; try exact Hvc;
      apply fadd_valid; try apply Hx; try apply Hf;
      apply fsub_valid; try apply Hx; try apply Hf; apply Ht. }
  destruct (is_finite t) eqn:Hft; [right | left; reflexivity].
  destruct (fadd_finite_inv _ _ Hft) as [Hff Hfx].
  destruct (is_finite c) eqn:Hfc.
  2:{ left. destruct (fleb (fabs x) (fabs f)); apply fadd_not_finite_l; exact Hfc. }
  destruct Hinv as [Hi | [Hi | Hi]]; try congruence.
  pose proof (nonneg_scaled f Hf) as HF0. pose proof (nonneg_scaled x Hx) as HX0.
  destruct (sum_result_finite _ _
              (fadd_spec f x Hff Hfx (proj2 Hf) (proj2 Hx)) Hft) as [Hvt Hnt].
  fold t in Hnt.
  pose proof (fleb_abs_spec x f Hfx Hff (proj2 Hx) (proj2 Hf)) as Hcmp.
  rewrite !Z.abs_eq in Hcmp by lia.
  destruct (fleb (fabs x) (fabs f)).
  - apply (compensation_bound f x c t (scaled f)); try assumption;
      try apply Hf; try apply Hx; lia.
  - apply (compensation_bound x f c t (scaled f)); try assumption;
      try apply Hf; try apply Hx; try lia.
    rewrite Z.add_comm. exact Hnt.
Qed.

Lemma compensated_fold_inv (xs : list float) :
  forall f c,
    comp_inv f c -> Forall nonneg_ok xs ->
    comp_inv (fst (fold_left compensated_step xs (f, c)))
             (snd (fold_left compensated_step xs (f, c))).
Proof.
  induction xs as [| x rest IH]; intros f c Hinv Hall; cbn [fold_left].
  - exact Hinv.
  - inversion Hall as [| ? ? Hx Hrest]; subst.
    pose proof (compensated_step_inv f c x Hinv Hx) as Hstep.
    destruct (compensated_step (f, c) x) as [t c'] eqn:Hs.
    apply IH; [exact Hstep | exact Hrest].
Qed.

Lemma compensated_finish_nonneg (f c : float) :
  comp_inv f c -> not_below_zero (compensated_finish (f, c)) = true.
Proof.
  intros (Hf & Hvc & Hinv). unfold compensated_finish.
  destruct (negb (feqb c (dec 0 1)) && is_finite c) eqn:Hcond; [| apply Hf].
  apply andb_true_iff in Hcond. destruct Hcond as [_ Hfc].
  destruct (is_finite f) eqn:Hff.
  - destruct Hinv as [Hi | [Hi | Hi]]; try congruence.
    apply (sum_result_nonneg (scaled f + scaled c)); [exact Hi |].
    apply fadd_spec; [assumption | assumption | apply Hf | exact Hvc].
  - destruct Hf as [Hs _].
    destruct f as [s | s | | s m e], c as [s' | s' | | s' m' e'];
      try discriminate; try reflexivity; destruct s; try discriminate; reflexivity.
Qed.

Lemma rep_pow2 (k : Z) : 0 <= k -> rep (2 ^ k).
Proof.
  intros Hk. unfold rep, ulp_exp. rewrite Z.log2_pow2 by exact Hk.
  apply pow2_divide. lia.
Qed.

(** A whole number other than 0 converts to a float with a full mantissa. *)
Lemma Z_to_float_digits (z : Z) (s : bool) (m : positive) (e : Z) :
  Z_to_float z = S754_finite s m e ->
  bounded prec emax m e = true /\ Z.pos (digits2_pos m) = 53.
Proof.
  unfold Z_to_float, binary_normalize.
  assert (Hgen : forall sg M,
             binary_round prec emax sg M 0 = S754_finite s m e ->
             bounded prec emax m e = true /\ Z.pos (digits2_pos m) = 53).
  { intros sg M Heq.
    destruct (binary_round_spec sg M 0 ltac:(lia)) as (R & HR & Hnear & Hres).
    rewrite Heq in Hres.
    destruct Hres as [Hinf | (m' & e' & [= <- <- <-] & Hb & Hv)]; [discriminate |].
    split; [exact Hb |].
    pose proof (rep_pow2 1074 ltac:(lia)) as Hrep.
    assert (Hp : 0 < 2 ^ 1074) by (apply Z.pow_pos_nonneg; lia).
    change (0 + 1074) with 1074 in Hnear.
    assert (Hge : 2 ^ 1074 <= R) by (apply (near_pos_ge _ _ _ Hnear Hrep); nia).
    apply bounded_iff in Hb. destruct Hb as [Hc _].
    pose proof (digits2_bounds m) as [_ Hhi].
    destruct (Z.eq_dec (Z.pos (digits2_pos m)) 53) as [H53 | H53]; [exact H53 |].
    exfalso.
    assert (He : e = -1074) by lia.
    rewrite He in Hv. change (2 ^ (-1074 + 1074)) with 1 in Hv.
    assert (2 ^ Z.pos (digits2_pos m) <= 2 ^ 53) by (apply Z.pow_le_mono_r; lia).
    assert (2 ^ 53 < 2 ^ 1074) by (apply Z.pow_lt_mono_r; lia).
    lia. }
  destruct z as [| M | M]; [discriminate | apply Hgen | apply Hgen].
Qed.

Lemma fmul_valid (p y : float) :
  (forall s m e, y = S754_finite s m e -> Z.pos (digits2_pos m) = 53) ->
  valid (fmul p y) = true.
Proof.
  intros Hy.
  destruct p as [sp | sp | | sp mp ep], y as [sy | sy | | sy my ey]; try reflexivity.
  specialize (Hy sy my ey eq_refl).
  unfold fmul, SFmul.
  pose proof (digits2_le my (mp * my) ltac:(rewrite Pos2Z.inj_mul; nia)) as Hd.
  destruct (round_aux_spec (xorb sp sy) (mp * my) (ep + ey)) as (q & _ & _ & Hr).
  { rewrite fexp_eq. lia. }
  destruct Hr as [[_ ->] | [[_ ->] | (m & e & -> & Hb & _)]];
    [reflexivity | reflexivity | exact Hb].
Qed.

Lemma line_value_nonneg_ok (i : CartItem) :
  fltb (price i) (Z_to_float 0) = false -> 0 <= qty i ->
  nonneg_ok (line_value i).
Proof.
  intros Hp Hq. unfold line_value. split.
  - apply fmul_not_below_zero;
      [apply not_below_zero_fltb, Hp | apply Z_to_float_not_below_zero, Hq].
  - apply fmul_valid. intros s m e Heq. apply (Z_to_float_digits _ _ _ _ Heq).
Qed.

Lemma compensated_subtotal_not_below_zero (items : list CartItem) (s : float) :
  Forall (fun i => fltb (price i) (Z_to_float 0) = false /\ 0 <= qty i) items ->
  cart_subtotal Compensated items = Ok s ->
  not_below_zero s = true.
Proof.
  intros Hall Hs. pose proof (cart_subtotal_ok_fits _ _ _ Hs) as Hfit.
  unfold cart_subtotal, py_sum in Hs. rewrite (line_totals_fit _ Hfit) in Hs.
  destruct items as [| i rest]; cbn [map bind] in Hs.
  - injection Hs as <-. reflexivity.
  - rewrite py_sum_compensated_values in Hs. injection Hs as <-.
    inversion Hall as [| ? ? [Hp Hq] Hrest]; subst.
    assert (Hok : Forall nonneg_ok (map line_value rest)).
    { clear -Hrest. induction Hrest as [| j l [Hp Hq] _ IH]; cbn [map];
        constructor; [apply line_value_nonneg_ok; assumption | exact IH]. }
    assert (Hinv : comp_inv (fadd (Z_to_float 0) (line_value i)) (dec 0 1)).
    { assert (Hf : nonneg_ok (fadd (Z_to_float 0) (line_value i))).
      { apply fadd_nonneg; [split; reflexivity |].
        apply line_value_nonneg_ok; assumption. }
      split; [exact Hf |]. split; [reflexivity |].
      right. right. pose proof (nonneg_scaled _ Hf).
      change (scaled (dec 0 1)) with 0. lia. }
    pose proof (compensated_fold_inv _ _ _ Hinv Hok) as Hend.
    destruct (fold_left compensated_step (map line_value rest)
                (fadd (Z_to_float 0) (line_value i), dec 0 1)) as [f' c'].
    apply compensated_finish_nonneg, Hend.
Qed.
(** The compensated loop on zero products and on NaN. *)
Lemma line_value_zero_quantity (i : CartItem) :
  qty i = 0 -> is_finite (price i) = true ->
  exists sg, line_value i = S754_zero sg.
Proof.
  intros Hq Hp. unfold line_value. rewrite Hq.
  destruct float_literals as (_ & -> & _).
  destruct (price i) as [sg | sg | | sg m e]; try discriminate;
    eexists; reflexivity.
Qed.

Lemma compensated_zero_quantities (items : list CartItem) :
  Forall (fun i => qty i = 0 /\ is_finite (price i) = true) items ->
  fold_left compensated_step (map line_value items) (S754_zero false, S754_zero false)
  = (S754_zero false, S754_zero false).
Proof.
  induction items as [| i rest IH]; intros Hall; cbn [map fold_left].
  - reflexivity.
  - inversion Hall as [| ? ? [Hq Hp] Hrest]; subst.
    destruct (line_value_zero_quantity i Hq Hp) as [sg ->].
    assert (Hstep : compensated_step (S754_zero false, S754_zero false) (S754_zero sg)
                    = (S754_zero false, S754_zero false))
      by (destruct sg; reflexivity).
    rewrite Hstep. apply IH, Hrest.
Qed.

Lemma compensated_from_nan (xs : list float) :
  forall c, exists c', fold_left compensated_step xs (@pair float float S754_nan c)
              = @pair float float S754_nan c'.
Proof.
  induction xs as [| x rest IH]; intros c; cbn [fold_left].
  - eauto.
  - unfold compensated_step at 2.
    change (fadd S754_nan x) with S754_nan. apply IH.
Qed.

Lemma compensated_nan (xs : list float) :
  forall f c,
    Exists (fun x => x = S754_nan) xs ->
    exists c', fold_left compensated_step xs (f, c) = @pair float float S754_nan c'.
Proof.
  induction xs as [| x rest IH]; intros f c Hex; cbn [fold_left].
  - inversion Hex.
  - inversion Hex as [? ? Hx | ? ? Hrest]; subst.
    + unfold compensated_step at 2.
      assert (Hn : fadd f S754_nan = S754_nan) by (destruct f; reflexivity).
      rewrite Hn. apply compensated_from_nan.
    + unfold compensated_step at 2. apply IH, Hrest.
Qed.

Lemma compensated_finish_nan (c : float) :
  compensated_finish (@pair float float S754_nan c) = S754_nan.
Proof.
  unfold compensated_finish.
  destruct (negb (feqb c (dec 0 1)) && is_finite c); reflexivity.
Qed.

Lemma line_value_nan (i : CartItem) :
  price i = S754_nan -> line_value i = S754_nan.
Proof. intros H. unfold line_value. rewrite H. reflexivity. Qed.

(** Both ways of summing give [+0.0] on zero quantities and NaN on a NaN
    price. *)
Lemma cart_subtotal_zero_quantities (alg : sum_algorithm) (items : list CartItem) :
  Forall (fun i => qty i = 0 /\ is_finite (price i) = true) items ->
  cart_subtotal alg items = Ok (S754_zero false).
Proof.
  intros Hall.
  assert (Hfit : Forall (fun i => Z.abs (qty i) < DBL_OVERFLOW) items).
  { eapply Forall_impl; [exact Hall |]. intros i [-> _]. run. }
  destruct alg.
  - rewrite (cart_subtotal_left_to_right _ Hfit). unfold sigma_price_qty.
    rewrite (sigma_zero_quantities _ Hall). reflexivity.
  - unfold cart_subtotal, py_sum. rewrite (line_totals_fit _ Hfit).
    destruct Hall as [| i rest [Hq Hp] Hrest]; [reflexivity |].
    cbn [map bind].
    destruct (line_value_zero_quantity i Hq Hp) as [sg ->].
    rewrite py_sum_compensated_values.
    assert (Hfirst : fadd (Z_to_float 0) (S754_zero sg) = S754_zero false)
      by (destruct sg; reflexivity).
    rewrite Hfirst. change (dec 0 1) with (S754_zero false).
    f_equal.
    transitivity (compensated_finish (S754_zero false, S754_zero false));
      [f_equal; apply compensated_zero_quantities, Hrest | reflexivity].
Qed.

Lemma cart_subtotal_nan_price (alg : sum_algorithm) (items : list CartItem) :
  Forall (fun i => Z.abs (qty i) < DBL_OVERFLOW) items ->
  Exists (fun i => price i = S754_nan) items ->
  cart_subtotal alg items = Ok S754_nan.
Proof.
  intros Hfit Hnan. destruct alg.
  - rewrite (cart_subtotal_left_to_right _ Hfit). unfold sigma_price_qty.
    rewrite (sigma_nan_price _ _ Hnan). reflexivity.
  - unfold cart_subtotal, py_sum. rewrite (line_totals_fit _ Hfit).
    destruct items as [| i rest]; [inversion Hnan |].
    cbn [map bind]. rewrite py_sum_compensated_values.
    inversion Hnan as [? ? Hi | ? ? Hrest]; subst.
    + rewrite (line_value_nan i Hi).
      change (fadd (Z_to_float 0) S754_nan) with S754_nan.
      destruct (compensated_from_nan (map line_value rest) (dec 0 1)) as [c' ->].
      rewrite compensated_finish_nan. reflexivity.
    + destruct (compensated_nan (map line_value rest)
                  (fadd (Z_to_float 0) (line_value i)) (dec 0 1)) as [c' ->].
      * clear -Hrest.
        induction Hrest as [j l Hj | j l _ IH]; cbn [map];
          [left; apply line_value_nan, Hj | right; exact IH].
      * rewrite compensated_finish_nan. reflexivity.
Qed.

Lemma line_totals_agree (xs ys : list CartItem) :
  Forall2 (fun a b => price a = price b /\ qty a = qty b) xs ys ->
  map line_total xs = map line_total ys.
Proof.
  induction 1 as [| a b xs ys [Hp Hq] _ IH]; cbn [map]; [reflexivity |].
  rewrite IH. unfold line_total. rewrite Hp, Hq. reflexivity.
Qed.

(** X1. The cart summary is returned exactly when every quantity is
    below the float overflow bound in magnitude; when it is not returned
    the exception is the [OverflowError] of the int-to-float conversion,
    whatever the prices are and whichever way the sum is taken. *)
Theorem cart_summary_fails_only_on_overflow (alg : sum_algorithm)
    (items : list CartItem) :
  ((exists r, compute_cart_summary alg items = Ok r) <->
   Forall (fun i => Z.abs (qty i) < DBL_OVERFLOW) items) /\
  (forall e, compute_cart_summary alg items = Raise e ->
             e = Exception "OverflowError" "int too large to convert to float").
Proof.
  split; [split |].
  - intros [r Hr].
    destruct (cart_subtotal alg items) as [s | e] eqn:Hs.
    + apply (cart_subtotal_ok_fits _ _ _ Hs).
    + rewrite (compute_cart_summary_raises _ _ _ Hs) in Hr. discriminate.
  - intros Hfit. destruct (cart_subtotal_fits alg items Hfit) as [s Hs].
    eexists. apply compute_cart_summary_of_subtotal, Hs.
  - intros e He.
    destruct (line_totals_split items) as [Hall | (before & i & after & -> & _ & Hi)].
    + destruct (cart_subtotal_fits alg items Hall) as [s Hs].
      rewrite (compute_cart_summary_of_subtotal _ _ _ Hs) in He. discriminate.
    + rewrite (compute_cart_summary_raises alg _
                 (Exception "OverflowError" "int too large to convert to float")) in He.
      * congruence.
      * apply cart_subtotal_overflows, Exists_app. right. left. exact Hi.
Qed.

(** X2. Without a negative price there is no negative amount: if no
    price is below zero and no quantity is negative, then the subtotal,
    the tax and the total of the summary are not below zero. *)
Theorem no_negative_price_no_negative_total (alg : sum_algorithm)
    (items : list CartItem) (r : CartSummary) :
  Forall (fun i => fltb (price i) (Z_to_float 0) = false /\ 0 <= qty i) items ->
  compute_cart_summary alg items = Ok r ->
  fltb (subtotal r) (Z_to_float 0) = false /\
  fltb (tax r) (Z_to_float 0) = false /\
  fltb (total r) (Z_to_float 0) = false.
Proof.
  intros Hall Hr.
  destruct (cart_subtotal alg items) as [s | e] eqn:Hs;
    [| rewrite (compute_cart_summary_raises _ _ _ Hs) in Hr; discriminate].
  rewrite (compute_cart_summary_of_subtotal _ _ _ Hs) in Hr.
  injection Hr as <-. cbn [subtotal tax total].
  assert (Hnn : not_below_zero s = true).
  { destruct alg.
    - rewrite (cart_subtotal_inv _ _ Hs).
      apply sigma_not_below_zero; [reflexivity | exact Hall].
    - apply (compensated_subtotal_not_below_zero items s Hall Hs). }
  assert (Htax : not_below_zero (py_round (fmul s (dec 7 2)) 2) = true).
  { apply py_round_not_below_zero, fmul_not_below_zero; [exact Hnn | run]. }
  repeat split; apply not_below_zero_fltb.
  - apply py_round_not_below_zero, Hnn.
  - exact Htax.
  - apply py_round_not_below_zero, fadd_not_below_zero;
      [apply fadd_not_below_zero; assumption | apply shipping_fee_not_below_zero].
Qed.

Lemma no_negative_price_no_negative_total_witness :
  Forall (fun i => fltb (price i) (Z_to_float 0) = false /\ 0 <= qty i)
         [item (dec 199 2) 3; item (dec 0 1) 7] /\
  exists r,
    compute_cart_summary Compensated [item (dec 199 2) 3; item (dec 0 1) 7] = Ok r /\
    fltb (total r) (Z_to_float 0) = false.
Proof.
  assert (Hall : Forall (fun i => fltb (price i) (Z_to_float 0) = false /\ 0 <= qty i)
                        [item (dec 199 2) 3; item (dec 0 1) 7])
    by (repeat constructor; simpl; (reflexivity || lia)).
  split; [exact Hall |].
  destruct (compute_cart_summary Compensated [item (dec 199 2) 3; item (dec 0 1) 7])
    as [r | e] eqn:Hr;
    [| exfalso; revert Hr; vm_compute; discriminate].
  exists r. split; [reflexivity |].
  exact (proj2 (proj2 (no_negative_price_no_negative_total _ _ r Hall Hr))).
Defined.

(** X3. A cart whose lines all have quantity 0 and a finite price is
    priced as the empty cart: subtotal, tax, shipping and total are all
    [+0.0], so no shipping fee is charged. *)
Theorem zero_quantities_priced_as_empty (alg : sum_algorithm) (items : list CartItem) :
  Forall (fun i => qty i = 0 /\ is_finite (price i) = true) items ->
  compute_cart_summary alg items =
    Ok {| subtotal := S754_zero false; tax := S754_zero false;
          shipping := S754_zero false; total := S754_zero false |}.
Proof.
  intros Hall.
  rewrite (compute_cart_summary_of_subtotal _ _ _
             (cart_subtotal_zero_quantities alg items Hall)).
  run.
Qed.

Lemma zero_quantities_priced_as_empty_witness :
  Forall (fun i => qty i = 0 /\ is_finite (price i) = true)
         [item (dec 199 2) 0; item (dec (-5) 0) 0] /\
  compute_cart_summary Compensated [item (dec 199 2) 0; item (dec (-5) 0) 0]
  = compute_cart_summary Compensated [].
Proof.
  assert (Hall : Forall (fun i => qty i = 0 /\ is_finite (price i) = true)
                        [item (dec 199 2) 0; item (dec (-5) 0) 0])
    by (repeat constructor).
  split; [exact Hall |].
  rewrite (zero_quantities_priced_as_empty Compensated _ Hall). reflexivity.
Defined.

(** The price has to be finite: one line of quantity 0 and infinite price
    makes the subtotal NaN and the shipping 4.99. *)
Lemma zero_quantity_at_infinite_price (alg : sum_algorithm) :
  compute_cart_summary alg [item (S754_infinity false) 0] =
    Ok {| subtotal := S754_nan; tax := S754_nan;
          shipping := dec 499 2; total := S754_nan |}.
Proof. destruct alg; run. Qed.

(** X4. A NaN price spoils the whole summary: when every quantity
    converts to a float and some item has a NaN price, the subtotal, the
    tax and the total are NaN, and the shipping is 4.99, whatever the other
    items are. *)
Theorem nan_price_poisons_summary (alg : sum_algorithm) (items : list CartItem) :
  Forall (fun i => Z.abs (qty i) < DBL_OVERFLOW) items ->
  Exists (fun i => price i = S754_nan) items ->
  compute_cart_summary alg items =
    Ok {| subtotal := S754_nan; tax := S754_nan;
          shipping := dec 499 2; total := S754_nan |}.
Proof.
  intros Hfit Hnan.
  rewrite (compute_cart_summary_of_subtotal _ _ _
             (cart_subtotal_nan_price alg items Hfit Hnan)).
  run.
Qed.

Lemma nan_price_poisons_summary_witness :
  exists r,
    compute_cart_summary Compensated [item (dec 3000 2) 1; item S754_nan 2] = Ok r /\
    shipping r = dec 499 2 /\ total r = S754_nan.
Proof.
  eexists. split.
  - apply (nan_price_poisons_summary Compensated [item (dec 3000 2) 1; item S754_nan 2]).
    + repeat constructor; reflexivity.
    + right. left. reflexivity.
  - split; reflexivity.
Defined.

(** X5. The summary reads the price and the quantity of an item and
    nothing else: two carts whose items agree on these, position by
    position, get the same summary, whatever their ids and names (items
    with the same id are not merged). *)
Theorem summary_ignores_labels (alg : sum_algorithm) (xs ys : list CartItem) :
  Forall2 (fun a b => price a = price b /\ qty a = qty b) xs ys ->
  compute_cart_summary alg xs = compute_cart_summary alg ys.
Proof.
  intros H. unfold compute_cart_summary, cart_subtotal.
  rewrite (line_totals_agree _ _ H). reflexivity.
Qed.

Lemma summary_ignores_labels_witness :
  compute_cart_summary Compensated [item (dec 199 2) 3; item (dec 199 2) 3]
  = compute_cart_summary Compensated [relabelled (item (dec 199 2) 3); item (dec 199 2) 3].
Proof.
  apply summary_ignores_labels. repeat constructor.
Defined.

(** ** More on record normalisation *)

(** X6. Normalisation changes the set of keys in one way only: [_id]
    goes and [id] comes.  No other key is dropped or added. *)
Theorem normalize_record_keys (d : dict) :
  exists d',
    normalize_record d = Ok d' /\
    dom d' = {["id"]} ∪ (dom d ∖ {["_id"]}).
Proof.
  exists (normalized_form d). split; [apply normalize_record_ok |].
  unfold normalized_form.
  rewrite !dom_alter_L, dom_insert_L, dom_delete_L. reflexivity.
Qed.

Lemma normalize_in_place_lookup (refs : list nat) :
  forall (h : heap),
  exists h',
    normalize_in_place refs h = Ok h' /\
    forall a, h' !! a = Nat.iter (occurrences a refs) normalized_form <$> h !! a.
Proof.
  induction refs as [| r rest IH]; intros h; simpl.
  - exists h. split; [reflexivity |]. intros a. destruct (h !! a); reflexivity.
  - destruct (h !! r) as [d |] eqn:Hr.
    + rewrite normalize_record_ok. cbn [bind].
      destruct (IH (<[r := normalized_form d]> h)) as (h' & Hh' & Hlook).
      exists h'. split; [exact Hh' |]. intros a. rewrite Hlook.
      destruct (decide (r = a)) as [-> | Hne].
      * rewrite lookup_insert_eq, Hr. simpl. f_equal.
        rewrite <- Nat.iter_succ_r. reflexivity.
      * rewrite lookup_insert_ne by exact Hne. reflexivity.
    + destruct (IH h) as (h' & Hh' & Hlook).
      exists h'. split; [exact Hh' |]. intros a. rewrite Hlook.
      destruct (decide (r = a)) as [-> | Hne]; [| reflexivity].
      rewrite Hr. reflexivity.
Qed.

Lemma occurrences_notin (a : nat) (refs : list nat) :
  a ∉ refs -> occurrences a refs = O.
Proof.
  induction refs as [| r rest IH]; intros Hn; simpl; [reflexivity |].
  rewrite not_elem_of_cons in Hn. destruct Hn as [Hne Hn].
  destruct (decide (r = a)); [congruence | apply IH, Hn].
Qed.

Lemma occurrences_NoDup (a : nat) (refs : list nat) :
  NoDup refs -> a ∈ refs -> occurrences a refs = 1%nat.
Proof.
  induction 1 as [| r rest Hnotin Hnd IH]; intros Hin; [inversion Hin |].
  simpl. rewrite elem_of_cons in Hin.
  destruct (decide (r = a)) as [-> | Hne].
  - rewrite (occurrences_notin _ _ Hnotin). reflexivity.
  - destruct Hin as [-> | Hin]; [congruence | apply IH, Hin].
Qed.

Lemma occurrences_app (a : nat) (l1 l2 : list nat) :
  occurrences a (l1 ++ l2) = (occurrences a l1 + occurrences a l2)%nat.
Proof.
  induction l1 as [| r rest IH]; simpl; [reflexivity |].
  destruct (decide (r = a)); simpl; rewrite IH; reflexivity.
Qed.

Lemma normalized_form_twice_id (d : dict) (n : nat) :
  Nat.iter (S (S n)) normalized_form d !! "id" = Some (VStr "").
Proof.
  induction n as [| n IH].
  - simpl. rewrite (normalized_form_of_normalized _ (normalized_form_is_normalized d)).
    apply lookup_insert_eq.
  - change (Nat.iter (S (S (S n))) normalized_form d)
      with (normalized_form (Nat.iter (S (S n)) normalized_form d)).
    rewrite normalized_form_lookup_id.
    assert (Hnone : Nat.iter (S (S n)) normalized_form d !! "_id" = None)
      by apply normalized_form_lookup_internal_id.
    rewrite Hnone. reflexivity.
Qed.

(** X7. When the listed records are distinct objects, the loop that
    changes them in place leaves exactly what normalising each record's
    content gives, in the same order, and touches no other object. *)
Theorem in_place_loop_on_distinct_records (refs : list nat) (h : heap) :
  NoDup refs ->
  Forall (fun r => is_Some (h !! r)) refs ->
  exists h',
    normalize_in_place refs h = Ok h' /\
    normalize_docs (read_docs h refs) = Ok (read_docs h' refs) /\
    (forall a, a ∉ refs -> h' !! a = h !! a).
Proof.
  intros Hnd Halloc.
  destruct (normalize_in_place_lookup refs h) as (h' & Hh' & Hlook).
  exists h'. split; [exact Hh' |]. split.
  - rewrite normalize_docs_ok. f_equal. unfold read_docs.
    rewrite map_map. apply map_ext_in. intros r Hr.
    apply list_elem_of_In in Hr.
    rewrite Hlook, (occurrences_NoDup _ _ Hnd Hr).
    rewrite Forall_forall in Halloc. destruct (Halloc r Hr) as [d ->]. reflexivity.
  - intros a Ha. rewrite Hlook, (occurrences_notin _ _ Ha).
    destruct (h !! a); reflexivity.
Qed.

Lemma in_place_loop_on_distinct_records_witness :
  exists h',
    normalize_in_place [0%nat; 1%nat] two_records = Ok h' /\
    normalize_docs [raw_product; raw_product] = Ok (read_docs h' [0%nat; 1%nat]).
Proof.
  destruct (in_place_loop_on_distinct_records [0%nat; 1%nat] two_records)
    as (h' & Hh' & Hdocs & _).
  - apply NoDup_cons_2; [| apply NoDup_singleton].
    rewrite list_elem_of_singleton. discriminate.
  - repeat constructor; eexists; reflexivity.
  - exists h'. split; [exact Hh' | exact Hdocs].
Defined.

(** X8. A record that is listed twice is normalised twice, and the
    second pass wipes its identifier: after the loop its [id] is the empty
    string. *)
Theorem shared_record_loses_id (l1 l2 l3 : list nat) (r : nat) (h : heap) :
  is_Some (h !! r) ->
  exists h' d',
    normalize_in_place (l1 ++ r :: l2 ++ r :: l3) h = Ok h' /\
    h' !! r = Some d' /\
    d' !! "id" = Some (VStr "").
Proof.
  intros [d Hd].
  destruct (normalize_in_place_lookup (l1 ++ r :: l2 ++ r :: l3) h) as (h' & Hh' & Hlook).
  exists h'. eexists. split; [exact Hh' |].
  rewrite Hlook, Hd. split; [reflexivity |].
  assert (Hocc : exists n, occurrences r (l1 ++ r :: l2 ++ r :: l3) = S (S n)).
  { rewrite occurrences_app. simpl. rewrite decide_True by reflexivity.
    rewrite occurrences_app. simpl. rewrite decide_True by reflexivity.
    eexists (occurrences r l1 + (occurrences r l2 + occurrences r l3))%nat. lia. }
  destruct Hocc as [n ->]. apply normalized_form_twice_id.
Qed.

Lemma shared_record_loses_id_witness :
  exists h' d',
    normalize_in_place [0%nat; 0%nat] two_records = Ok h' /\
    h' !! 0%nat = Some d' /\
    d' !! "id" = Some (VStr "").
Proof.
  apply (shared_record_loses_id [] [] [] 0%nat two_records).
  eexists. reflexivity.
Defined.


(** ** More on the endpoints *)

Lemma normalize_docs_pointwise (docs : list dict) :
  Forall2 (fun d d' => normalize_record d = Ok d') docs (map normalized_form docs).
Proof.
  induction docs as [| d rest IH]; simpl; constructor;
    [apply normalize_record_ok | exact IH].
Qed.
Lemma normalized_docs_are_normalized (docs : list dict) :
  Forall is_normalized (map normalized_form docs).
Proof.
  induction docs as [| d rest IH]; simpl; constructor;
    [apply normalized_form_is_normalized | exact IH].
Qed.

(** X9. When the store returns records, the product and user listings
    answer with as many items in the same order, each item the normalised
    form of the record at its position and in normalised shape, and leave
    the store as the fetch left it. *)
Theorem listings_hold_the_normalized_records (store : Type)
    (get_documents : string -> option Z -> store -> result (list dict) * store)
    (limit : option Z) (st st' : store) (docs : list dict) :
  (get_documents "product" limit st = (Ok docs, st') ->
   exists b,
     list_products store get_documents limit st = (Returns b, st') /\
     Forall2 (fun d d' => normalize_record d = Ok d') docs (items b) /\
     Forall is_normalized (items b)) /\
  (get_documents "user" limit st = (Ok docs, st') ->
   exists b,
     list_users store get_documents limit st = (Returns b, st') /\
     Forall2 (fun d d' => normalize_record d = Ok d') docs (items b) /\
     Forall is_normalized (items b)).
Proof.
  split; intros Hget; eexists;
    (split; [first [apply list_products_returns | apply list_users_returns]; exact Hget |]);
    cbn [items];
    (split; [apply normalize_docs_pointwise | apply normalized_docs_are_normalized]).
Qed.
Lemma listings_hold_the_normalized_records_witness :
  exists b,
    list_products (list dict) shelf_get_documents (Some 50) [raw_product; raw_product]
    = (Returns b, [raw_product; raw_product]) /\
    length (items b) = 2%nat /\
    Forall is_normalized (items b).
Proof.
  destruct (listings_hold_the_normalized_records (list dict) shelf_get_documents
              (Some 50) [raw_product; raw_product] [raw_product; raw_product]
              [raw_product; raw_product]) as [Hprod _].
  destruct (Hprod eq_refl) as (b & Hb & Hpoint & Hnorm).
  exists b. split; [exact Hb |]. split; [| exact Hnorm].
  apply Forall2_length in Hpoint. rewrite <- Hpoint. reflexivity.
Defined.

(** X10. An endpoint of the store fails only when the store does: an
    [HTTPException] from any of the four has status 500 and the message of
    an exception the store raised on that call.  Normalising the fetched
    records never turns a successful fetch into an error. *)
Theorem endpoints_fail_only_with_the_store (store : Type)
    (create_document : string -> payload -> store -> result value * store)
    (get_documents : string -> option Z -> store -> result (list dict) * store)
    (st st' : store) (code : Z) (detail : string) :
  (forall p, create_product store create_document p st = (HTTPException code detail, st') ->
     code = 500 /\
     exists e, create_document "product" (ProductPayload p) st = (Raise e, st') /\
               detail = exn_str e) /\
  (forall limit, list_products store get_documents limit st = (HTTPException code detail, st') ->
     code = 500 /\
     exists e, get_documents "product" limit st = (Raise e, st') /\ detail = exn_str e) /\
  (forall u, create_user store create_document u st = (HTTPException code detail, st') ->
     code = 500 /\
     exists e, create_document "user" (UserPayload u) st = (Raise e, st') /\
               detail = exn_str e) /\
  (forall limit, list_users store get_documents limit st = (HTTPException code detail, st') ->
     code = 500 /\
     exists e, get_documents "user" limit st = (Raise e, st') /\ detail = exn_str e).
Proof.
  split; [| split; [| split]]; intros x;
    unfold create_product, list_products, create_user, list_users;
    match goal with
    | |- context [create_document ?c ?p st] => destruct (create_document c p st) as [[v | e] st'']
    | |- context [get_documents ?c ?l st] => destruct (get_documents c l st) as [[v | e] st'']
    end; cbn [bind]; rewrite ?normalize_docs_ok; cbn [bind except_500]; intros [= ? ? ?];
    subst; try discriminate; eauto.
Qed.
Lemma endpoints_fail_only_with_the_store_witness :
  list_users nat down_get_documents None 3%nat
  = (HTTPException 500 "localhost:27017: connection refused", 4%nat) /\
  exists e, down_get_documents "user" None 3%nat = (Raise e, 4%nat) /\
            "localhost:27017: connection refused" = exn_str e.
Proof.
  assert (H : list_users nat down_get_documents None 3%nat
              = (HTTPException 500 "localhost:27017: connection refused", 4%nat))
    by reflexivity.
  split; [exact H |].
  destruct (endpoints_fail_only_with_the_store nat down_create_document down_get_documents
              3%nat 4%nat 500 "localhost:27017: connection refused")
    as (_ & _ & _ & Hlist).
  exact (proj2 (Hlist None H)).
Defined.


(** ** The diagnostic endpoint *)

Lemma str_prefix_code_points (s : string) :
  forall n, code_points (str_prefix n s) = Nat.min n (code_points s).
Proof.
  induction s as [| c s' IH]; intros n; cbn [str_prefix code_points].
  - rewrite Nat.min_0_r. reflexivity.
  - destruct (is_continuation c) eqn:Hc; cbn [code_points]; rewrite ?Hc.
    + apply IH.
    + destruct n as [| n']; cbn [code_points]; rewrite ?Hc; [reflexivity |].
      rewrite IH. reflexivity.
Qed.

Lemma str_prefix_is_prefix (s : string) :
  forall n, exists rest, s = str_prefix n s +:+ rest /\ at_boundary rest = true.
Proof.
  induction s as [| c s' IH]; intros n; cbn [str_prefix].
  - exists "". split; reflexivity.
  - destruct (is_continuation c) eqn:Hc.
    + destruct (IH n) as (rest & Hrest & Hb). exists rest.
      split; [rewrite Hrest at 1; reflexivity | exact Hb].
    + destruct n as [| n'].
      * exists (String c s'). split; [reflexivity |]. cbn [at_boundary].
        rewrite Hc. reflexivity.
      * destruct (IH n') as (rest & Hrest & Hb). exists rest.
        split; [rewrite Hrest at 1; reflexivity | exact Hb].
Qed.

Lemma str_prefix_all (s : string) :
  forall n, (code_points s <= n)%nat -> str_prefix n s = s.
Proof.
  induction s as [| c s' IH]; intros n; cbn [str_prefix code_points]; [reflexivity |].
  destruct (is_continuation c); intros Hn.
  - rewrite IH by exact Hn. reflexivity.
  - destruct n as [| n']; [lia |]. rewrite IH by lia. reflexivity.
Qed.

(** A string has one prefix of a given number of characters that ends
    where a character ends. *)
Lemma boundary_prefix_unique (d1 : string) :
  forall d2 r1 r2,
    d1 +:+ r1 = d2 +:+ r2 ->
    code_points d1 = code_points d2 ->
    at_boundary r1 = true -> at_boundary r2 = true ->
    d1 = d2.
Proof.
  induction d1 as [| c d1' IH]; intros d2 r1 r2 Happ Hcp Hb1 Hb2.
  - destruct d2 as [| c' d2']; [reflexivity |].
    change (r1 = String c' (d2' +:+ r2)) in Happ.
    subst r1. cbn [at_boundary] in Hb1.
    cbn [code_points] in Hcp. destruct (is_continuation c'); discriminate.
  - destruct d2 as [| c' d2'].
    + change (String c (d1' +:+ r1) = r2) in Happ.
      subst r2. cbn [at_boundary] in Hb2.
      cbn [code_points] in Hcp. destruct (is_continuation c); discriminate.
    + change (String c (d1' +:+ r1) = String c' (d2' +:+ r2)) in Happ.
      injection Happ as <- Happ.
      cbn [code_points] in Hcp.
      f_equal. apply (IH d2' r1 r2 Happ); [| exact Hb1 | exact Hb2].
      destruct (is_continuation c); [exact Hcp | lia].
Qed.

Ltac diag_cases db :=
  unfold test_database, probe_database, probe_collections;
  destruct db as [[[name | e] [cs | e']] |]; cbn [db_name list_collection_names].

(** X11. Whatever the database handle and the environment are, the
    diagnostic response has the same six keys, and [backend] says
    ["✅ Running"]. *)
Theorem diagnostic_has_six_keys (db : option Database) (env : gmap string string) :
  dom (test_database db env) = six_keys /\
  test_database db env !! "backend" = Some (DStr "✅ Running").
Proof.
  split.
  - diag_cases db; unfold initial_response, six_keys;
      rewrite !dom_insert_L, dom_empty_L; set_solver.
  - diag_cases db; unfold initial_response;
      rewrite !(lookup_insert_ne _ _ "backend") by discriminate;
      apply lookup_insert_eq.
Qed.

(** X12. [database_url] and [database_name] report the environment
    only: each is ["✅ Set"] when its variable is a non-empty string and
    ["❌ Not Set"] otherwise, whatever the database handle is.  What line
    48 stored from the handle's own [name] is overwritten before the
    response is returned. *)
Theorem diagnostic_env_fields (db : option Database) (env : gmap string string) :
  test_database db env !! "database_url"
    = Some (DStr (set_or_not (env !! "DATABASE_URL"))) /\
  test_database db env !! "database_name"
    = Some (DStr (set_or_not (env !! "DATABASE_NAME"))) /\
  (forall name, test_database db env !! "database_name" = Some (DStr name) ->
                name = "✅ Set" \/ name = "❌ Not Set").
Proof.
  assert (Hname : test_database db env !! "database_name"
                  = Some (DStr (set_or_not (env !! "DATABASE_NAME"))))
    by apply lookup_insert_eq.
  split; [| split; [exact Hname |]].
  - unfold test_database. rewrite lookup_insert_ne by discriminate.
    apply lookup_insert_eq.
  - intros name. rewrite Hname. intros [= <-]. unfold set_or_not.
    destruct (truthy _); auto.
Qed.

(** X13. [collections] is a list of at most ten names: the first ten
    the database lists when the listing is reached and succeeds, and empty
    in every other case. *)
Theorem diagnostic_collections (db : option Database) (env : gmap string string) :
  exists l,
    test_database db env !! "collections" = Some (DList l) /\
    (length l <= 10)%nat /\
    (forall d all, db = Some d -> list_collection_names d = Ok all ->
                   (exists name, db_name d = Ok name) -> l = take 10 all) /\
    (l <> [] -> exists d all name,
                  db = Some d /\ list_collection_names d = Ok all /\
                  db_name d = Ok name).
Proof.
  diag_cases db; unfold initial_response; eexists;
    (split; [other_key; first [apply lookup_insert_eq | reflexivity] |]).
  all: split; [try (simpl; lia); rewrite length_take; lia |].
  all: split; [intros d all [= <-]; cbn [db_name list_collection_names];
               intros Hall [nm Hnm]; congruence |].
  all: intros Hne; try congruence; eauto 6.
Qed.

(** X14. [connection_status] is ["Connected"] exactly when there is a
    database handle whose name can be read, also when listing its
    collections fails; [database] is ["✅ Connected & Working"] exactly
    when the listing succeeded too, and never keeps its initial
    ["❌ Not Available"]. *)
Theorem diagnostic_status (db : option Database) (env : gmap string string) :
  exists s c,
    test_database db env !! "database" = Some (DStr s) /\
    test_database db env !! "connection_status" = Some (DStr c) /\
    s <> "❌ Not Available" /\
    (c = "Connected" \/ c = "Not Connected") /\
    (c = "Connected" <-> exists d name, db = Some d /\ db_name d = Ok name) /\
    (s = "✅ Connected & Working" <->
     exists d name all,
       db = Some d /\ db_name d = Ok name /\ list_collection_names d = Ok all) /\
    (db = None -> s = "⚠️  Available but not initialized").
Proof.
  diag_cases db; unfold initial_response; do 2 eexists;
    (split; [other_key; apply lookup_insert_eq |]);
    (split; [other_key; apply lookup_insert_eq |]);
    (split; [discriminate |]);
    (split; [auto |]).
  all: split; [split; [intros H; try discriminate H; eauto
                      | intros (d & nm & [= <-] & Hnm); cbn in Hnm; congruence] |].
  all: split; [split; [intros H; try discriminate H; eauto 6
                      | intros (d & nm & all & [= <-] & Hnm & Hall); cbn in Hnm, Hall;
                        congruence] |].
  all: intros H; congruence.
Qed.

(** X15. When reading the name or listing the collections raises, the
    [database] field is the label of that failure (["❌ Error: "] for the
    name, ["⚠️  Connected but Error: "] for the listing) followed by the
    first 50 characters of the exception's message: the message cut where a
    character ends, after 50 characters or at its end when it has fewer,
    so a message of at most 50 characters is kept whole. *)
Theorem diagnostic_error_detail (d : Database) (env : gmap string string) (e : exn) :
  db_name d = Raise e \/
  ((exists name, db_name d = Ok name) /\ list_collection_names d = Raise e) ->
  exists label detail rest,
    test_database (Some d) env !! "database" = Some (DStr (label +:+ detail)) /\
    label = match db_name d with
            | Raise _ => "❌ Error: "
            | Ok _ => "⚠️  Connected but Error: "
            end /\
    exn_str e = detail +:+ rest /\
    at_boundary rest = true /\
    code_points detail = Nat.min 50 (code_points (exn_str e)) /\
    ((code_points (exn_str e) <= 50)%nat -> detail = exn_str e).
Proof.
  intros Hraise.
  destruct (str_prefix_is_prefix (exn_str e) 50) as (rest & Hrest & Hb).
  pose proof (str_prefix_code_points (exn_str e) 50) as Hcp.
  pose proof (str_prefix_all (exn_str e) 50) as Hall.
  unfold test_database, probe_database, probe_collections.
  destruct d as [nm cols]; cbn [db_name list_collection_names] in *.
  destruct Hraise as [-> | [[name ->] ->]].
  - exists "❌ Error: ", (str_prefix 50 (exn_str e)), rest.
    split; [other_key; apply lookup_insert_eq | auto 6].
  - exists "⚠️  Connected but Error: ", (str_prefix 50 (exn_str e)), rest.
    split; [other_key; apply lookup_insert_eq | auto 6].
Qed.

Lemma diagnostic_error_detail_witness :
  exists detail rest,
    test_database (Some locked) ∅ !! "database"
    = Some (DStr ("⚠️  Connected but Error: " +:+ detail)) /\
    refusal = detail +:+ rest /\
    code_points detail = 50%nat /\
    code_points refusal = 86%nat.
Proof.
  destruct (diagnostic_error_detail locked ∅ (Exception "OperationFailure" refusal))
    as (label & detail & rest & Hdb & Hlabel & Hmsg & _ & Hcp & _).
  - right. split; [eexists |]; reflexivity.
  - exists detail, rest. cbn in Hlabel. subst label.
    split; [exact Hdb |]. split; [exact Hmsg |].
    split; [exact Hcp | reflexivity].
Defined.

(** The cut counts characters, not bytes: the 50 characters kept of the
    sample message take 52 bytes, and a message of thirty two-byte
    characters is kept whole. *)
Lemma str_prefix_counts_characters :
  str_prefix 50 refusal = "échec de l'authentification auprès du serveur de d" /\
  String.length (str_prefix 50 refusal) = 52%nat /\
  str_prefix 50 "éééééééééééééééééééééééééééééé" = "éééééééééééééééééééééééééééééé" /\
  String.length "éééééééééééééééééééééééééééééé" = 60%nat /\
  str_prefix 3 "✅ Set" = "✅ S".
Proof. repeat split; reflexivity. Qed.
